(** * RT-DETR predictor: post-processing and pre-processing

    A shallow embedding of [ultralytics/models/rtdetr/predict.py]
    ([RTDETRPredictor.postprocess] and [RTDETRPredictor.pre_transform]).

    Tensors are nested lists of scalars together with the last dimension the
    code reads from [shape]; Python exceptions are [None]; the helpers the
    file imports from the rest of the package ([ops.xywh2xyxy],
    [ops.convert_torch2numpy_batch], [LetterBox]) and torch's [argsort] are
    parameters of the development. *)

From Stdlib Require Import List ZArith Bool Lia Arith Permutation Sorted.
From Stdlib Require Import QArith.
From Stdlib Require String.
Import ListNotations.
Close Scope Q_scope.

Set Implicit Arguments.

(* ------------------------------------------------------------------ *)
(** ** Scalars *)

(** The element type of the float tensors: the comparison used by [>] and
    [max], the product used by [*=], and the cast from a Python [int] or an
    int64 element. *)
Class Scalar (T : Type) : Type := {
  ltb : T -> T -> bool;
  mul : T -> T -> T;
  of_Z : Z -> T
}.

(** The comparison is a strict weak order (floats without NaN, rationals). *)
Class ScalarOrder (T : Type) `{Scalar T} : Prop := {
  ltb_asym : forall a b : T, ltb a b = true -> ltb b a = false;
  ltb_negtrans : forall a b c : T, ltb a b = false -> ltb b c = false -> ltb a c = false
}.

(* ------------------------------------------------------------------ *)
(** ** Exceptions as [option] *)

Definition bind {A B : Type} (m : option A) (k : A -> option B) : option B :=
  match m with
  | Some a => k a
  | None => None
  end.

Notation "x <- m ;; k" := (bind m (fun x => k))
  (at level 61, m at next level, right associativity).
Notation "' p <- m ;; k" := (bind m (fun x => let p := x in k))
  (at level 61, p pattern, m at next level, right associativity).

Fixpoint mapM {A B : Type} (f : A -> option B) (l : list A) : option (list B) :=
  match l with
  | [] => Some []
  | a :: l' =>
      b <- f a ;;
      bs <- mapM f l' ;;
      Some (b :: bs)
  end.

(* ------------------------------------------------------------------ *)
(** ** Tensor operations on nested lists *)

Section ListOps.
Context {A : Type}.

(** [t[mask]] with a boolean mask along the first dimension. *)
Fixpoint mask_select (t : list A) (mask : list bool) : list A :=
  match t, mask with
  | a :: t', b :: mask' =>
      if b then a :: mask_select t' mask' else mask_select t' mask'
  | _, _ => []
  end.

(** [t[idxs]] with a list of integer positions; a position out of range
    raises [IndexError]. *)
Definition index_select (t : list A) (idxs : list nat) : option (list A) :=
  mapM (nth_error t) idxs.

(** The slice [t[:k]]: a negative [k] counts from the end. *)
Definition py_take (k : Z) (t : list A) : list A :=
  if (k <? 0)%Z
  then firstn (length t - Z.to_nat (- k)) t
  else firstn (Z.to_nat k) t.

(** [zip] of four iterables stops at the shortest. *)
Fixpoint zip4 {B C D : Type} (la : list A) (lb : list B) (lc : list C) (ld : list D)
  : list (A * B * C * D) :=
  match la, lb, lc, ld with
  | a :: la', b :: lb', c :: lc', d :: ld' => (a, b, c, d) :: zip4 la' lb' lc' ld'
  | _, _, _, _ => []
  end.

(** [f] applied to every element together with its position, from [i]. *)
Fixpoint imap_from (B : Type) (f : nat -> A -> B) (i : nat) (l : list A) : list B :=
  match l with
  | [] => []
  | a :: l' => f i a :: imap_from f (S i) l'
  end.
End ListOps.

(** [torch.cat([a, b, c], dim=-1)] of three matrices with the same number of
    rows. *)
Fixpoint cat_last {A : Type} (a b c : list (list A)) : list (list A) :=
  match a, b, c with
  | ra :: a', rb :: b', rc :: c' => (ra ++ rb ++ rc) :: cat_last a' b' c'
  | _, _, _ => []
  end.

(* ------------------------------------------------------------------ *)
(** ** Data *)

(** A numpy image of shape (H, W, C), uint8. *)
Record Image : Type := {
  im_h : nat;
  im_w : nat;
  im_c : nat;
  im_data : list Z
}.

(** [orig_img.shape[:2]]. *)
Definition shape2 (im : Image) : nat * nat := (im_h im, im_w im).

(** [self.imgsz]: an int or a (h, w) pair. *)
Inductive ImgSz : Type :=
| SzInt (n : Z)
| SzPair (h w : Z).

Section Predictor.
Context {T : Type} `{Scalar T}.

(** A tensor of three dimensions with the size of its last one
    ([t.shape[-1]]), which nested lists do not record when a dimension
    before it is empty. *)
Record Tensor3 : Type := {
  t_nd : nat;
  t_data : list (list (list T))
}.

Definition Tensor4 : Type := list (list (list (list T))).

(** Every row of the tensor has [t_nd] entries. *)
Definition wf_tensor (t : Tensor3) : bool :=
  forallb (forallb (fun r => length r =? t_nd t)) (t_data t).

(** [preds]: a bare tensor (export inference) or a list or tuple whose
    first item is the prediction tensor; [None] items stand for anything
    that is not a tensor. *)
Inductive Preds : Type :=
| PTensor (t : Tensor3)
| PList (l : list (option Tensor3)).

(** [orig_imgs]: a list of numpy images or one tensor. *)
Inductive OrigImgs : Type :=
| OList (l : list Image)
| OTensor (t : Tensor4).

(** The fields of [self.args] the two methods read. *)
Record Args : Type := {
  conf : T;
  classes : option (list Z);
  max_det : Z
}.

(** [self.batch]: paths, original images and log strings. *)
Record Batch : Type := {
  paths : list String.string;
  im0s : list Image;
  strs : list String.string
}.

Record Predictor : Type := {
  args : Args;
  batch : Batch;
  names : list (Z * String.string);   (* self.model.names *)
  imgsz : ImgSz
}.

(** [Results(orig_img, path=..., names=..., boxes=...)]. *)
Record Results : Type := {
  orig_img : Image;
  path : String.string;
  res_names : list (Z * String.string);
  boxes : list (list T)
}.

(* ---------------------------------------------------------------- *)
(** *** Pieces of [postprocess] *)

(** [if not isinstance(preds, (list, tuple)): preds = [preds, None]]. *)
Definition as_list (preds : Preds) : list (option Tensor3) :=
  match preds with
  | PTensor t => [Some t; None]
  | PList l => l
  end.

(** [preds[0]] read as a tensor: an empty list or an item that is not a
    tensor raises. *)
Definition item0 (l : list (option Tensor3)) : option Tensor3 :=
  match l with
  | Some t :: _ => Some t
  | _ => None
  end.

(** [preds[0].split((4, nd - 4), dim=-1)]: a negative size raises. *)
Definition split_last (t : Tensor3) : option (list (list (list T)) * list (list (list T))) :=
  if t_nd t <? 4 then None
  else Some (map (map (firstn 4)) (t_data t), map (map (skipn 4)) (t_data t)).

(** The running maximum of [torch.max] along a row: among equal maximal
    entries the first one is returned. *)
Fixpoint max_from (best : T) (bi : nat) (i : nat) (l : list T) : T * nat :=
  match l with
  | [] => (best, bi)
  | x :: l' =>
      if ltb best x then max_from x i (S i) l' else max_from best bi (S i) l'
  end.

Definition row_max (r : list T) : option (T * Z) :=
  match r with
  | [] => None
  | x :: l => let (m, i) := max_from x 0 1 l in Some (m, Z.of_nat i)
  end.

(** [score.max(-1, keepdim=True)] on a tensor of shape (n, nc): values and
    indices of shape (n, 1); an empty reduction dimension raises. *)
Definition tensor_max (nc : nat) (score : list (list T))
  : option (list (list T) * list (list Z)) :=
  if nc =? 0 then None
  else
    mi <- mapM row_max score ;;
    Some (map (fun p => [fst p]) mi, map (fun p => [snd p]) mi).

(** [max_score.squeeze(-1)] of a tensor of shape (n, 1): the same entries
    with the last dimension dropped. *)
Definition squeeze_last {A : Type} (t : list (list A)) : list A := concat t.

(** [(cls == torch.tensor(classes)).any(1)]: the (n, 1) column broadcast
    against the class list. *)
Definition cls_in (cs : list Z) (cls : list (list Z)) : list bool :=
  map (fun r => existsb (fun c => existsb (Z.eqb c) cs) r) cls.

Fixpoint and_mask (a b : list bool) : list bool :=
  match a, b with
  | x :: a', y :: b' => (x && y) :: and_mask a' b'
  | _, _ => []
  end.

(** [pred[:, j]]. *)
Definition column (j : nat) (t : list (list T)) : option (list T) :=
  mapM (fun r => nth_error r j) t.

(** One row of [pred[..., cols] *= k]: the listed columns are read,
    multiplied and written back. *)
Definition imul_row (cols : list nat) (k : T) (r : list T) : option (list T) :=
  if forallb (fun c => c <? length r) cols
  then Some (imap_from (fun j x => if existsb (Nat.eqb j) cols then mul x k else x) 0 r)
  else None.

Definition imul_cols (cols : list nat) (k : T) (t : list (list T)) : option (list (list T)) :=
  mapM (imul_row cols k) t.

Section Postprocess.
(** [ops.xywh2xyxy] on one box (it acts on the last dimension). *)
Variable xywh2xyxy : list T -> list T.
(** [t.argsort(descending=True)]. *)
Variable argsort : list T -> list nat.
(** [ops.convert_torch2numpy_batch]. *)
Variable convert_torch2numpy_batch : Tensor4 -> list Image.

Variable self : Predictor.

(** The body of the loop over the images of the batch; [nc] is the size of
    the last dimension of [score]. *)
Definition postprocess_image (nc : nat) (bbox score : list (list T))
    (orig_img : Image) (img_path : String.string) : option Results :=
  (* bbox = ops.xywh2xyxy(bbox) *)
  let bbox := map xywh2xyxy bbox in
  (* max_score, cls = score.max(-1, keepdim=True) *)
  '(max_score, cls) <- tensor_max nc score ;;
  (* idx = max_score.squeeze(-1) > self.args.conf *)
  let idx := map (fun m => ltb (conf (args self)) m) (squeeze_last max_score) in
  (* if self.args.classes is not None:
       idx = (cls == torch.tensor(self.args.classes)).any(1) & idx *)
  let idx :=
    match classes (args self) with
    | Some cs => and_mask (cls_in cs cls) idx
    | None => idx
    end in
  (* pred = torch.cat([bbox, max_score, cls], dim=-1)[idx] *)
  let pred := mask_select (cat_last bbox max_score (map (map of_Z) cls)) idx in
  (* pred = pred[pred[:, 4].argsort(descending=True)][: self.args.max_det] *)
  key <- column 4 pred ;;
  sorted <- index_select pred (argsort key) ;;
  let pred := py_take (max_det (args self)) sorted in
  (* oh, ow = orig_img.shape[:2] *)
  let '(oh, ow) := shape2 orig_img in
  (* pred[..., [0, 2]] *= ow *)
  pred <- imul_cols [0; 2] (of_Z (Z.of_nat ow)) pred ;;
  (* pred[..., [1, 3]] *= oh *)
  pred <- imul_cols [1; 3] (of_Z (Z.of_nat oh)) pred ;;
  (* results.append(Results(orig_img, path=img_path, names=self.model.names, boxes=pred)) *)
  Some {| orig_img := orig_img; path := img_path;
          res_names := names self; boxes := pred |}.

(** [img] is an argument the method never reads. *)
Definition postprocess (preds : Preds) (img : Tensor4) (orig_imgs : OrigImgs)
  : option (list Results) :=
  (* if not isinstance(preds, (list, tuple)): preds = [preds, None] *)
  let preds := as_list preds in
  (* nd = preds[0].shape[-1] *)
  p0 <- item0 preds ;;
  let nd := t_nd p0 in
  (* bboxes, scores = preds[0].split((4, nd - 4), dim=-1) *)
  '(bboxes, scores) <- split_last p0 ;;
  (* if not isinstance(orig_imgs, list):
       orig_imgs = ops.convert_torch2numpy_batch(orig_imgs) *)
  let orig_imgs :=
    match orig_imgs with
    | OList l => l
    | OTensor t => convert_torch2numpy_batch t
    end in
  (* for bbox, score, orig_img, img_path in zip(bboxes, scores, orig_imgs, self.batch[0]) *)
  mapM (fun '(bbox, score, orig_img, img_path) =>
          postprocess_image (nd - 4) bbox score orig_img img_path)
       (zip4 bboxes scores orig_imgs (paths (batch self))).
End Postprocess.

Section PreTransform.
(** [LetterBox(new_shape, auto=..., scale_fill=...)(image=x)]. *)
Variable LetterBox : ImgSz -> bool -> bool -> Image -> Image.

Definition pre_transform (self : Predictor) (im : list Image) : list Image :=
  let letterbox := LetterBox (imgsz self) false true in
  map letterbox im.
End PreTransform.
End Predictor.

Arguments Tensor3 T : clear implicits.
Arguments Tensor4 T : clear implicits.
Arguments Preds T : clear implicits.
Arguments OrigImgs T : clear implicits.
Arguments Args T : clear implicits.
Arguments Predictor T : clear implicits.
Arguments Results T : clear implicits.

(* ------------------------------------------------------------------ *)
(** ** Instances used to run the model *)

(** A stable descending insertion sort of the positions of [v]: one
    implementation of [argsort(descending=True)]. *)
Section StableArgsort.
Context {T : Type} `{Scalar T}.

Definition lt_at (v : list T) (i j : nat) : bool :=
  match nth_error v i, nth_error v j with
  | Some a, Some b => ltb a b
  | _, _ => false
  end.

Fixpoint insert_desc (v : list T) (i : nat) (l : list nat) : list nat :=
  match l with
  | [] => [i]
  | j :: l' => if lt_at v i j then j :: insert_desc v i l' else i :: j :: l'
  end.

Definition stable_argsort (v : list T) : list nat :=
  fold_right (insert_desc v) [] (seq 0 (length v)).
End StableArgsort.

(** Rational scalars. *)
#[export] Instance Q_Scalar : Scalar Q := {
  ltb a b := negb (Qle_bool b a);
  mul := Qmult;
  of_Z := inject_Z
}.

(** Centre and size to corners, (x, y, w, h) to (x1, y1, x2, y2), on
    rationals: an instance of the [xywh2xyxy] parameter. *)
Definition center_to_corners (b : list Q) : list Q :=
  match b with
  | [x; y; w; h] =>
      [Qminus x (Qdiv w (inject_Z 2)); Qminus y (Qdiv h (inject_Z 2));
       Qplus x (Qdiv w (inject_Z 2)); Qplus y (Qdiv h (inject_Z 2))]
  | _ => b
  end.


(* ------------------------------------------------------------------ *)
(** ** The store: tensors that share memory *)

(** The two methods once more, now with the memory of the arrays made
    explicit: a tensor object is a window on a storage cell, views share the
    cell of the tensor they were taken from, and an in-place operation
    writes the cell. Index and mask tensors, which are only read, stay
    values. *)

Section Store.
Context {T : Type} `{Scalar T}.

Inductive Cell : Type :=
| CTensor (d : list (list (list T)))      (* blocks of rows; one block for a matrix *)
| CTensor4 (d : Tensor4 T)
| CImage (im : Image).

(** Memory, the predictor object, and the cells written in place so far
    (latest first). *)
Record State : Type := {
  st_heap : list Cell;
  st_self : Predictor T;
  st_log : list nat
}.

(** A computation returns a value or raises, and leaves a state either way. *)
Definition M (A : Type) : Type := State -> option A * State.

Definition ret {A : Type} (a : A) : M A := fun s => (Some a, s).

Definition bindM {A B : Type} (m : M A) (k : A -> M B) : M B :=
  fun s =>
    match m s with
    | (Some a, s') => k a s'
    | (None, s') => (None, s')
    end.

Definition lift {A : Type} (o : option A) : M A := fun s => (o, s).

Definition get_self : M (Predictor T) := fun s => (Some (st_self s), s).

Fixpoint mapM_st {A B : Type} (f : A -> M B) (l : list A) : M (list B) :=
  match l with
  | [] => ret []
  | a :: l' =>
      bindM (f a) (fun b => bindM (mapM_st f l') (fun bs => ret (b :: bs)))
  end.

(** A new cell at the end of the memory. *)
Definition alloc (c : Cell) : M nat :=
  fun s =>
    (Some (length (st_heap s)),
     {| st_heap := st_heap s ++ [c]; st_self := st_self s; st_log := st_log s |}).

(** [l[i] = a]; nothing changes when [i] is out of range (the callers
    check the range first). *)
Fixpoint set_nth {A : Type} (i : nat) (a : A) (l : list A) : list A :=
  match l, i with
  | [], _ => []
  | _ :: l', 0 => a :: l'
  | x :: l', S i' => x :: set_nth i' a l'
  end.

(** A three-dimensional tensor object: its cell and the columns it sees. *)
Record View3 : Type := {
  w_cell : nat;
  w_col : nat;
  w_ncol : nat
}.

(** A matrix object: one block of a cell, its first [v_nrows] rows (all of
    them for [None]) and [v_ncol] columns from [v_col] on (all the
    remaining ones for [None]). *)
Record View : Type := {
  v_cell : nat;
  v_block : nat;
  v_nrows : option nat;
  v_col : nat;
  v_ncol : option nat
}.

Definition window_row (col : nat) (ncol : option nat) (r : list T) : list T :=
  match ncol with
  | Some n => firstn n (skipn col r)
  | None => skipn col r
  end.

Definition window_rows (nrows : option nat) (m : list (list T)) : list (list T) :=
  match nrows with
  | Some n => firstn n m
  | None => m
  end.

Definition read3 (w : View3) : M (list (list (list T))) :=
  fun s =>
    match nth_error (st_heap s) (w_cell w) with
    | Some (CTensor d) =>
        (Some (map (map (window_row (w_col w) (Some (w_ncol w)))) d), s)
    | _ => (None, s)
    end.

Definition read2 (v : View) : M (list (list T)) :=
  fun s =>
    match nth_error (st_heap s) (v_cell v) with
    | Some (CTensor d) =>
        match nth_error d (v_block v) with
        | Some m =>
            (Some (map (window_row (v_col v) (v_ncol v)) (window_rows (v_nrows v) m)), s)
        | None => (None, s)
        end
    | _ => (None, s)
    end.

Definition read4 (cell : nat) : M (Tensor4 T) :=
  fun s =>
    match nth_error (st_heap s) cell with
    | Some (CTensor4 d) => (Some d, s)
    | _ => (None, s)
    end.

Definition read_image (cell : nat) : M Image :=
  fun s =>
    match nth_error (st_heap s) cell with
    | Some (CImage im) => (Some im, s)
    | _ => (None, s)
    end.

(** A new matrix with its own cell. *)
Definition alloc2 (m : list (list T)) : M View :=
  bindM (alloc (CTensor [m]))
        (fun c => ret {| v_cell := c; v_block := 0; v_nrows := None;
                         v_col := 0; v_ncol := None |}).

(** The rows of [m] with the window of each of its first rows replaced by
    the matching row of [new]. *)
Fixpoint splice (col : nat) (m new : list (list T)) : list (list T) :=
  match m, new with
  | r :: m', n :: new' =>
      (firstn col r ++ n ++ skipn (col + length n) r) :: splice col m' new'
  | _, _ => m
  end.

(** Writing [new] through the view, in place: the cell of the view changes
    and is logged. The shape of [new] must be that of the view. *)
Definition store2 (v : View) (new : list (list T)) : M unit :=
  fun s =>
    match nth_error (st_heap s) (v_cell v) with
    | Some (CTensor d) =>
        match nth_error d (v_block v) with
        | Some m =>
            let old := map (window_row (v_col v) (v_ncol v)) (window_rows (v_nrows v) m) in
            if forallb (fun p => length (fst p) =? length (snd p)) (combine old new)
               && (length old =? length new)
            then
              (Some tt,
               {| st_heap :=
                    set_nth (v_cell v)
                      (CTensor (set_nth (v_block v) (splice (v_col v) m new) d))
                      (st_heap s);
                  st_self := st_self s;
                  st_log := v_cell v :: st_log s |})
            else (None, s)
        | None => (None, s)
        end
    | _ => (None, s)
    end.
End Store.

Arguments Cell T : clear implicits.
Arguments State T : clear implicits.
Arguments M T A : clear implicits.

Notation "x <~ m ;; k" := (bindM m (fun x => k))
  (at level 61, m at next level, right associativity).
Notation "' p <~ m ;; k" := (bindM m (fun x => let p := x in k))
  (at level 61, p pattern, m at next level, right associativity).

Section StoreMethods.
Context {T : Type} `{Scalar T}.
Variable xywh2xyxy : list T -> list T.
Variable argsort : list T -> list nat.
Variable convert_torch2numpy_batch : Tensor4 T -> list Image.
Variable LetterBox : ImgSz -> bool -> bool -> Image -> Image.

(** [preds] and [orig_imgs] as references into the memory. *)
Inductive PredsRef : Type :=
| RTensor (w : View3)
| RList (l : list (option View3)).

Inductive OrigRef : Type :=
| RImages (l : list nat)
| RImgTensor (cell : nat).

(** A [Results] object keeps the image and the boxes it was given, not
    copies of them. *)
Record ResultsRef : Type := {
  rr_orig_img : nat;
  rr_path : String.string;
  rr_names : list (Z * String.string);
  rr_boxes : View
}.

Definition as_list_ref (preds : PredsRef) : list (option View3) :=
  match preds with
  | RTensor w => [Some w; None]
  | RList l => l
  end.

Definition item0_ref (l : list (option View3)) : option View3 :=
  match l with
  | Some w :: _ => Some w
  | _ => None
  end.

(** [split((4, nd - 4), dim=-1)]: two views of the same cell. *)
Definition split3 (w : View3) : M T (View3 * View3) :=
  if w_ncol w <? 4 then lift None
  else ret ({| w_cell := w_cell w; w_col := w_col w; w_ncol := 4 |},
            {| w_cell := w_cell w; w_col := w_col w + 4; w_ncol := w_ncol w - 4 |}).

(** Iterating over the first dimension: one view per block. *)
Definition iter3 (w : View3) : M T (list View) :=
  d <~ read3 w ;;
  ret (map (fun i => {| v_cell := w_cell w; v_block := i; v_nrows := None;
                        v_col := w_col w; v_ncol := Some (w_ncol w) |})
           (seq 0 (length d))).

(** [t[:k]]: a view of the first rows. *)
Definition slice_rows (v : View) (k : Z) : M T View :=
  m <~ read2 v ;;
  ret {| v_cell := v_cell v; v_block := v_block v;
         v_nrows := Some (length (py_take k m));
         v_col := v_col v; v_ncol := v_ncol v |}.

(** [t[..., cols]] read: a copy of the listed columns. *)
Definition select_cols (cols : list nat) (m : list (list T)) : option (list (list T)) :=
  mapM (fun r => mapM (nth_error r) cols) m.

(** [t[..., cols] = new] on values. *)
Definition put_row (cols : list nat) (r n : list T) : option (list T) :=
  if forallb (fun c => c <? length r) cols && (length n =? length cols)
  then Some (fold_left (fun acc cn => set_nth (fst cn) (snd cn) acc) (combine cols n) r)
  else None.

Fixpoint put_cols (cols : list nat) (m new : list (list T)) : option (list (list T)) :=
  match m, new with
  | [], [] => Some []
  | r :: m', n :: new' =>
      r' <- put_row cols r n ;;
      rest <- put_cols cols m' new' ;;
      Some (r' :: rest)
  | _, _ => None
  end.

(** [pred[..., cols] *= k]: the columns are copied out, the copy is
    multiplied in place, and the copy is written back into [pred]. *)
Definition imul_at (pred : View) (cols : list nat) (k : T) : M T unit :=
  pv <~ read2 pred ;;
  tv <~ lift (select_cols cols pv) ;;
  tmp <~ alloc2 tv ;;
  tv0 <~ read2 tmp ;;
  _ <~ store2 tmp (map (map (fun x => mul x k)) tv0) ;;
  tv1 <~ read2 tmp ;;
  pv1 <~ read2 pred ;;
  new <~ lift (put_cols cols pv1 tv1) ;;
  store2 pred new.

(** The loop body on references: [ops.xywh2xyxy], [max], [torch.cat] and
    the two indexings each return a tensor with a cell of its own; the
    slice [[: max_det]] is a view of the last of them. *)
Definition postprocess_image_st (nc : nat) (bbox score : View)
    (orig_img : nat) (img_path : String.string) : M T ResultsRef :=
  self <~ get_self ;;
  b <~ read2 bbox ;;
  bbox <~ alloc2 (map xywh2xyxy b) ;;
  sc <~ read2 score ;;
  '(ms, cls) <~ lift (tensor_max nc sc) ;;
  max_score <~ alloc2 ms ;;
  msv <~ read2 max_score ;;
  let idx := map (fun m => ltb (conf (args self)) m) (squeeze_last msv) in
  let idx :=
    match classes (args self) with
    | Some cs => and_mask (cls_in cs cls) idx
    | None => idx
    end in
  bv <~ read2 bbox ;;
  cat <~ alloc2 (cat_last bv msv (map (map of_Z) cls)) ;;
  cv <~ read2 cat ;;
  pred <~ alloc2 (mask_select cv idx) ;;
  pv <~ read2 pred ;;
  key <~ lift (column 4 pv) ;;
  sorted <~ lift (index_select pv (argsort key)) ;;
  pred <~ alloc2 sorted ;;
  pred <~ slice_rows pred (max_det (args self)) ;;
  im <~ read_image orig_img ;;
  let '(oh, ow) := shape2 im in
  _ <~ imul_at pred [0; 2] (of_Z (Z.of_nat ow)) ;;
  _ <~ imul_at pred [1; 3] (of_Z (Z.of_nat oh)) ;;
  ret {| rr_orig_img := orig_img; rr_path := img_path;
         rr_names := names self; rr_boxes := pred |}.

(** [postprocess] on references: [split] and the iteration give views of
    the cell of [preds[0]]; a tensor [orig_imgs] is converted into new
    images. *)
Definition postprocess_st (preds : PredsRef) (img : nat) (orig_imgs : OrigRef)
  : M T (list ResultsRef) :=
  self <~ get_self ;;
  let preds := as_list_ref preds in
  p0 <~ lift (item0_ref preds) ;;
  let nd := w_ncol p0 in
  '(bboxes, scores) <~ split3 p0 ;;
  orig_imgs <~ match orig_imgs with
               | RImages l => ret l
               | RImgTensor c =>
                   t <~ read4 c ;;
                   mapM_st (fun im => alloc (CImage im)) (convert_torch2numpy_batch t)
               end ;;
  bb <~ iter3 bboxes ;;
  ss <~ iter3 scores ;;
  mapM_st (fun '(bbox, score, orig_img, img_path) =>
             postprocess_image_st (nd - 4) bbox score orig_img img_path)
          (zip4 bb ss orig_imgs (paths (batch self))).

(** [pre_transform] on references: every letterboxed image is a new
    array. *)
Definition pre_transform_st (im : list nat) : M T (list nat) :=
  self <~ get_self ;;
  let letterbox := LetterBox (imgsz self) false true in
  mapM_st (fun r => x <~ read_image r ;; alloc (CImage (letterbox x))) im.

(** What the references of a result denote in a state. *)
Definition read_results (s : State T) (r : ResultsRef) : option (Results T) :=
  im <- fst (read_image (rr_orig_img r) s) ;;
  bx <- fst (read2 (rr_boxes r) s) ;;
  Some {| orig_img := im; path := rr_path r; res_names := rr_names r; boxes := bx |}.
End StoreMethods.

(* ------------------------------------------------------------------ *)
(** ** A small batch on which the model is run *)

Module Demo.
Import String.
Local Open Scope Q_scope.

(** Two images, three queries each, three classes ([nd = 7]). *)
Definition preds0 : Tensor3 Q := {|
  t_nd := 7;
  t_data :=
    [ [ [1#2; 1#2; 1#4; 1#2; 1#10; 7#10; 1#5];
        [1#4; 1#4; 1#2; 1#2; 9#10; 1#20; 1#20];
        [3#4; 3#4; 1#4; 1#4; 1#10; 1#10; 1#5] ];
      [ [1#2; 1#4; 1#2; 1#4; 3#10; 3#10; 2#5];
        [1#2; 1#2; 1#1; 1#1; 3#5; 1#5; 1#5];
        [1#4; 3#4; 1#4; 1#4; 1#10; 4#5; 1#10] ] ]
|}.

Definition img0 : Image := {| im_h := 2; im_w := 4; im_c := 1; im_data := [0; 1; 2; 3; 4; 5; 6; 7]%Z |}.
Definition img1 : Image := {| im_h := 3; im_w := 2; im_c := 1; im_data := [9; 8; 7; 6; 5; 4]%Z |}.

Definition self0 (cs : option (list Z)) (k : Z) : Predictor Q := {|
  args := {| conf := 1#4; classes := cs; max_det := k |};
  batch := {| paths := ["a.jpg"; "b.jpg"]%string; im0s := [img0; img1]; strs := [] |};
  names := [(0, "person"); (1, "bicycle"); (2, "car")]%Z%string;
  imgsz := SzPair 640 640
|}.

(** [postprocess] with the rational instances of its parameters. *)
Definition run (self : Predictor Q) (preds : Preds Q) (orig_imgs : OrigImgs Q)
  : option (list (Results Q)) :=
  postprocess center_to_corners stable_argsort (fun _ => []) self preds [] orig_imgs.

Definition imgs0 : OrigImgs Q := OList [img0; img1].

(** No class restriction and room for every detection. *)
Definition self_all : Predictor Q := self0 None 300.

Definition results_all : list (Results Q) :=
  Eval vm_compute in
    match run self_all (PTensor preds0) imgs0 with
    | Some rs => rs
    | None => []
    end.

(** The result of the first image and its best row. *)
Definition res_all0 : Results Q :=
  Eval vm_compute in
    nth 0 results_all
      {| orig_img := img0; path := ""%string; res_names := []; boxes := [] |}.

Definition row_all0 : list Q := Eval vm_compute in hd [] (boxes res_all0).

(** Classes 1 and 2 only, one detection per image. *)
Definition self_top1 : Predictor Q := self0 (Some [1; 2]%Z) 1.

Definition results_top1 : list (Results Q) :=
  Eval vm_compute in
    match run self_top1 (PTensor preds0) imgs0 with
    | Some rs => rs
    | None => []
    end.

Definition res_top1 : Results Q :=
  Eval vm_compute in
    nth 1 results_top1
      {| orig_img := img0; path := ""%string; res_names := []; boxes := [] |}.

Definition row_top1 : list Q := Eval vm_compute in hd [] (boxes res_top1).

(** The same batch in memory: the prediction tensor in cell 0, the images
    in cells 1 and 2. *)
Definition state0 : State Q := {|
  st_heap := [CTensor (t_data preds0); CImage img0; CImage img1];
  st_self := self_all;
  st_log := []
|}.

Definition preds_ref : PredsRef :=
  RTensor {| w_cell := 0; w_col := 0; w_ncol := 7 |}%nat.

Definition run_st : option (list ResultsRef) * State Q :=
  postprocess_st center_to_corners stable_argsort (fun _ => []) preds_ref 0%nat
    (RImages [1; 2]%nat) state0.
End Demo.
(* ------------------------------------------------------------------ *)
(** ** The detections of one image, row by row *)

Section RowView.
Context {T : Type} `{Scalar T}.
Variable xywh2xyxy : list T -> list T.
Variable self : Predictor T.

(** The filter as it acts on one prediction row, given the row's maximal
    score and the class where it is attained. *)
Definition keep (mc : T * Z) : bool :=
  match classes (args self) with
  | Some cs => existsb (Z.eqb (snd mc)) cs && ltb (conf (args self)) (fst mc)
  | None => ltb (conf (args self)) (fst mc)
  end.

(** The row of [pred] built from a prediction row: corner box, confidence,
    class. *)
Definition build (r : list T) (mc : T * Z) : list T :=
  xywh2xyxy (firstn 4 r) ++ [fst mc] ++ [of_Z (snd mc)].

(** The rows of [pred] after the filter, in the order of the predictions. *)
Definition filtered (rows : list (list T)) (mi : list (T * Z)) : list (list T) :=
  map (fun p => build (fst p) (snd p))
      (filter (fun p => keep (snd p)) (combine rows mi)).

(** The two in-place products on one row of [pred]. *)
Definition scale_row (im : Image) (row : list T) : option (list T) :=
  r <- imul_row [0; 2] (of_Z (Z.of_nat (im_w im))) row ;;
  imul_row [1; 3] (of_Z (Z.of_nat (im_h im))) r.

(** Row [a] does not have a smaller confidence (column 4) than row [b]. *)
Definition conf_ge (a b : list T) : Prop :=
  forall x y, nth_error a 4 = Some x -> nth_error b 4 = Some y -> ltb x y = false.

(** What is assumed of [argsort(descending=True)]: a permutation of the
    positions along which the values do not increase. Ties may come in any
    order. *)
Definition argsort_spec (argsort : list T -> list nat) : Prop :=
  forall v,
    Permutation (argsort v) (seq 0 (length v)) /\
    StronglySorted
      (fun i j => forall a b, nth_error v i = Some a -> nth_error v j = Some b ->
                              ltb a b = false)
      (argsort v).

(** [ops.xywh2xyxy] returns a tensor of the shape of its argument. *)
Definition shape_preserving (f : list T -> list T) : Prop :=
  forall b, length (f b) = length b.

(** The prediction rows of image [i]. *)
Definition rows_of (preds : Preds T) (i : nat) : option (list (list T)) :=
  p0 <- item0 (as_list preds) ;;
  nth_error (t_data p0) i.

(** [preds[0]] is a tensor, every row of which has [shape[-1]] entries. *)
Definition wf_preds (preds : Preds T) : bool :=
  match item0 (as_list preds) with
  | Some p0 => wf_tensor p0
  | None => false
  end.

(** The list [orig_imgs] the loop iterates over. *)
Definition images_of (convert_torch2numpy_batch : Tensor4 T -> list Image)
    (orig_imgs : OrigImgs T) : list Image :=
  match orig_imgs with
  | OList l => l
  | OTensor t => convert_torch2numpy_batch t
  end.
End RowView.

(* ------------------------------------------------------------------ *)
(** ** What a computation on the store may touch *)

Section Frames.
Context {T : Type} `{Scalar T}.

(** From [s] to [s']: memory only grows, the cells below [n] keep their
    contents, the predictor object is the same, and every cell written in
    place since [s] is at [n] or above. *)
Definition frame (n : nat) (s s' : State T) : Prop :=
  length (st_heap s) <= length (st_heap s') /\
  (forall l, l < n -> nth_error (st_heap s') l = nth_error (st_heap s) l) /\
  st_self s' = st_self s /\
  exists w, st_log s' = w ++ st_log s /\ Forall (fun l => n <= l) w.

(** [m], run in any state with at least [n] cells, keeps the frame of [n],
    whether it returns or raises, and a value it returns satisfies [Q]. *)
Definition safe {A : Type} (n : nat) (m : M T A) (Q : A -> Prop) : Prop :=
  forall s, n <= length (st_heap s) ->
    frame n s (snd (m s)) /\ forall a, fst (m s) = Some a -> Q a.

(** [m] writes no cell in place: it only adds cells. *)
Definition allocates_only {A : Type} (m : M T A) : Prop :=
  forall s,
    (exists ext, st_heap (snd (m s)) = st_heap s ++ ext) /\
    st_self (snd (m s)) = st_self s /\
    st_log (snd (m s)) = st_log s.
End Frames.


Section Denotation.
Context {T : Type} `{Scalar T}.


End Denotation.

(* ------------------------------------------------------------------ *)
(** ** Predictors that differ in one setting *)

Section Settings.
Context {T : Type} `{Scalar T}.

(** [self] with another [args.conf]. *)
Definition with_conf (self : Predictor T) (c : T) : Predictor T :=
  {| args := {| conf := c; classes := classes (args self);
                max_det := max_det (args self) |};
     batch := batch self; names := names self; imgsz := imgsz self |}.

(** [self] with another [args.classes]. *)
Definition with_classes (self : Predictor T) (cs : option (list Z)) : Predictor T :=
  {| args := {| conf := conf (args self); classes := cs;
                max_det := max_det (args self) |};
     batch := batch self; names := names self; imgsz := imgsz self |}.

(** [self] with other paths in [batch[0]]. *)
Definition with_paths (self : Predictor T) (ps : list String.string) : Predictor T :=
  {| args := args self;
     batch := {| paths := ps; im0s := im0s (batch self); strs := strs (batch self) |};
     names := names self; imgsz := imgsz self |}.
End Settings.

(* ------------------------------------------------------------------ *)
(** ** Ties *)

Section Ties.
Context {T : Type} `{Scalar T}.

(** No two entries of [l] compare as equal. *)
Definition tie_free (l : list T) : Prop :=
  ForallOrdPairs (fun a b => ltb a b = true \/ ltb b a = true) l.

(** In every image the maximal scores of the prediction rows are pairwise
    different. *)
Definition scores_tie_free (preds : Preds T) : Prop :=
  forall i rows mi,
    rows_of preds i = Some rows ->
    mapM row_max (map (skipn 4) rows) = Some mi ->
    tie_free (map fst mi).

(** Another [argsort(descending=True)]: the insertion sort run over the
    positions from the last to the first, so that equal values come out in
    the opposite order. *)
Definition reverse_argsort (v : list T) : list nat :=
  fold_right (insert_desc v) [] (rev (seq 0 (length v))).
End Ties.

(* ------------------------------------------------------------------ *)
(** ** More runs on the small batch *)

Module DemoX.
Import String.
Local Open Scope Q_scope.

Definition no_res : Results Q :=
  {| orig_img := Demo.img0; path := ""%string; res_names := []; boxes := [] |}.

Definition get (o : option (list (Results Q))) : list (Results Q) :=
  match o with
  | Some rs => rs
  | None => []
  end.

(** One query and no class: [nd = 4]. *)
Definition preds_no_class : Tensor3 Q :=
  {| t_nd := 4; t_data := [[[1#2; 1#2; 1#4; 1#4]]] |}.

(** Two blocks of predictions for one image. *)
Definition one_image : OrigImgs Q := OList [Demo.img0].

Definition results_short : list (Results Q) :=
  Eval vm_compute in get (Demo.run Demo.self_all (PTensor Demo.preds0) one_image).





(** Thresholds 1/4 and 1/2. *)
Definition results_low : list (Results Q) :=
  Eval vm_compute in
    get (Demo.run (with_conf Demo.self_all (1#4)) (PTensor Demo.preds0) Demo.imgs0).

Definition results_high : list (Results Q) :=
  Eval vm_compute in
    get (Demo.run (with_conf Demo.self_all (1#2)) (PTensor Demo.preds0) Demo.imgs0).

Definition res_high : Results Q := Eval vm_compute in nth 0 results_high no_res.

Definition row_high : list Q := Eval vm_compute in hd [] (boxes res_high).

(** An empty list of classes. *)
Definition self_no_class : Predictor Q := Demo.self0 (Some []) 300.

Definition results_no_class : list (Results Q) :=
  Eval vm_compute in get (Demo.run self_no_class (PTensor Demo.preds0) Demo.imgs0).

Definition res_no_class : Results Q := Eval vm_compute in nth 0 results_no_class no_res.

(** The two blocks of [Demo.preds0]. *)
Definition block0 : list (list (list Q)) := Eval vm_compute in firstn 1 (t_data Demo.preds0).
Definition block1 : list (list (list Q)) := Eval vm_compute in skipn 1 (t_data Demo.preds0).

(** Other images of the shapes of [Demo.img0] and [Demo.img1]. *)
Definition imgs_other : list Image :=
  [{| im_h := 2; im_w := 4; im_c := 1; im_data := [7; 7; 7; 7; 7; 7; 7; 7]%Z |};
   {| im_h := 3; im_w := 2; im_c := 1; im_data := [0; 0; 0; 0; 0; 0]%Z |}].

Definition paths_a : list string := ["a.jpg"%string].
Definition paths_b : list string := ["b.jpg"%string].

(** What the run on the store returns, and the state it leaves. *)
Definition refs_st : list ResultsRef :=
  Eval vm_compute in
    match fst Demo.run_st with
    | Some rs => rs
    | None => []
    end.

Definition state1 : State Q := Eval vm_compute in snd Demo.run_st.
End DemoX.

(* ------------------------------------------------------------------ *)
(** ** Lemmas on lists and exceptions *)

Unset Strict Implicit.

Lemma bind_Some {A B : Type} (m : option A) (k : A -> option B) (b : B) :
  bind m k = Some b -> exists a, m = Some a /\ k a = Some b.
Proof.
  destruct m as [a|]; simpl; intros E; [eauto | discriminate].
Qed.

Section OptionLemmas.
Context {A B : Type}.

Lemma mapM_Forall2 (f : A -> option B) (l : list A) (l' : list B) :
  mapM f l = Some l' <-> Forall2 (fun a b => f a = Some b) l l'.
Proof.
  revert l'; induction l as [|a l IH]; intros l'; simpl.
  - split; intros E.
    + injection E as <-. constructor.
    + inversion E. reflexivity.
  - split; intros E.
    + apply bind_Some in E as (b & Eb & E).
      apply bind_Some in E as (bs & Ebs & E).
      injection E as <-. constructor; [assumption | now apply IH].
    + inversion E as [|? b ? bs Eb Ebs]; subst.
      rewrite Eb; simpl. apply IH in Ebs. rewrite Ebs. reflexivity.
Qed.

Lemma mapM_length (f : A -> option B) (l : list A) (l' : list B) :
  mapM f l = Some l' -> length l' = length l.
Proof.
  intros E. apply mapM_Forall2 in E. symmetry. eapply Forall2_length; eassumption.
Qed.

Lemma mapM_total (f : A -> option B) (l : list A) :
  (forall a, In a l -> exists b, f a = Some b) -> exists l', mapM f l = Some l'.
Proof.
  induction l as [|a l IH]; intros Hf; simpl.
  - eauto.
  - destruct (Hf a (or_introl eq_refl)) as (b & ->).
    destruct IH as (l' & ->); [intros; apply Hf; now right |].
    simpl; eauto.
Qed.

Lemma mapM_Permutation (f : A -> option B) (l1 l2 : list A) (r1 : list B) :
  Permutation l1 l2 -> mapM f l1 = Some r1 ->
  exists r2, mapM f l2 = Some r2 /\ Permutation r1 r2.
Proof.
  intros P; revert r1; induction P; intros r1 E.
  - simpl in E. injection E as <-. exists []. split; [reflexivity | constructor].
  - simpl in E. apply bind_Some in E as (b & Eb & E).
    apply bind_Some in E as (bs & Ebs & E). injection E as <-.
    destruct (IHP _ Ebs) as (r2 & E2 & Q2).
    exists (b :: r2). simpl. rewrite Eb, E2. split; [reflexivity | now constructor].
  - simpl in E. apply bind_Some in E as (b & Eb & E).
    apply bind_Some in E as (bs & Ebs & E). injection E as <-.
    apply bind_Some in Ebs as (c & Ec & E).
    apply bind_Some in E as (cs & Ecs & E). injection E as <-.
    exists (c :: b :: cs). simpl. rewrite Eb, Ec, Ecs. split; [reflexivity | constructor].
  - destruct (IHP1 _ E) as (r2 & E2 & Q2).
    destruct (IHP2 _ E2) as (r3 & E3 & Q3).
    exists r3. split; [assumption | now transitivity r2].
Qed.
End OptionLemmas.

Section Forall2Lemmas.
Context {A B : Type}.
Variable R : A -> B -> Prop.

Lemma Forall2_In_r (l : list A) (l' : list B) (b : B) :
  Forall2 R l l' -> In b l' -> exists a, In a l /\ R a b.
Proof.
  induction 1 as [|a b' l l' HR HF IH]; simpl; intros HI; [contradiction |].
  destruct HI as [-> | HI]; [eauto |].
  destruct (IH HI) as (a' & ? & ?); eauto.
Qed.

Lemma Forall2_nth_error_r (l : list A) (l' : list B) (i : nat) (b : B) :
  Forall2 R l l' -> nth_error l' i = Some b ->
  exists a, nth_error l i = Some a /\ R a b.
Proof.
  intros HF; revert i; induction HF as [|a b' l l' HR HF IH]; intros [|i] E;
    simpl in *; try discriminate.
  - injection E as <-. eauto.
  - now apply IH.
Qed.

Lemma Forall2_nth_error_l (l : list A) (l' : list B) (i : nat) (a : A) :
  Forall2 R l l' -> nth_error l i = Some a ->
  exists b, nth_error l' i = Some b /\ R a b.
Proof.
  intros HF; revert i; induction HF as [|a' b l l' HR HF IH]; intros [|i] E;
    simpl in *; try discriminate.
  - injection E as <-. eauto.
  - now apply IH.
Qed.

End Forall2Lemmas.

Arguments Forall2_In_r {A B R l l' b} _ _.
Arguments Forall2_nth_error_r {A B R l l' i b} _ _.
Arguments Forall2_nth_error_l {A B R l l' i a} _ _.

Lemma StronglySorted_Forall2 {A B : Type} (P : A -> B -> Prop)
    (R : A -> A -> Prop) (R' : B -> B -> Prop) (l : list A) (l' : list B) :
  (forall a b a' b', P a a' -> P b b' -> R a b -> R' a' b') ->
  Forall2 P l l' -> StronglySorted R l -> StronglySorted R' l'.
Proof.
  intros HR HF; induction HF as [|a a' l l' Ha HF IH]; intros HS.
  - constructor.
  - inversion HS as [|? ? HS' Hall]; subst. constructor; [now apply IH |].
    apply Forall_forall; intros b' Hb'.
    destruct (Forall2_In_r HF Hb') as (b & Hb & Pb).
    rewrite Forall_forall in Hall. eapply HR; eauto.
Qed.

Lemma In_firstn_In {A : Type} (n : nat) (l : list A) (a : A) :
  In a (firstn n l) -> In a l.
Proof.
  intros Ha. rewrite <- (firstn_skipn n l). apply in_or_app. now left.
Qed.




Lemma nth_error_seq_all {A : Type} (l : list A) :
  mapM (nth_error l) (seq 0 (length l)) = Some l.
Proof.
  apply mapM_Forall2.
  assert (G : forall pre, Forall2 (fun i a => nth_error (pre ++ l) i = Some a)
                            (seq (length pre) (length l)) l).
  { induction l as [|a l IH]; intros pre; simpl; constructor.
    - rewrite nth_error_app2 by lia. now rewrite Nat.sub_diag.
    - specialize (IH (pre ++ [a])). rewrite <- app_assoc in IH. simpl in IH.
      rewrite length_app in IH. simpl in IH.
      now replace (length pre + 1) with (S (length pre)) in IH by lia. }
  exact (G []).
Qed.

Lemma Forall2_combine_In {A B : Type} (P : A -> B -> Prop) (l : list A) (l' : list B)
    (a : A) (b : B) :
  Forall2 P l l' -> In (a, b) (combine l l') -> P a b.
Proof.
  induction 1 as [|x y l l' HP HF IH]; simpl; intros HI; [contradiction |].
  destruct HI as [E | HI]; [injection E as <- <-; assumption | auto].
Qed.

Arguments Forall2_combine_In {A B P l l' a b} _ _.

Lemma Forall2_map_l {A B C : Type} (P : B -> C -> Prop) (f : A -> B)
    (l : list A) (l' : list C) :
  Forall2 P (map f l) l' <-> Forall2 (fun a c => P (f a) c) l l'.
Proof.
  revert l'; induction l as [|a l IH]; intros l'; simpl; split; intros HF;
    inversion HF; subst; constructor; auto; now apply IH.
Qed.

Section Zip4.
Context {A B C D : Type}.

Lemma nth_error_zip4 (la : list A) (lb : list B) (lc : list C) (ld : list D)
    (i : nat) (a : A) (b : B) (c : C) (d : D) :
  nth_error (zip4 la lb lc ld) i = Some (a, b, c, d) <->
  nth_error la i = Some a /\ nth_error lb i = Some b /\
  nth_error lc i = Some c /\ nth_error ld i = Some d.
Proof.
  revert lb lc ld i; induction la as [|a' la IH];
    intros [|b' lb] [|c' lc] [|d' ld] [|i]; simpl;
    try (split; [discriminate | intros (? & ? & ? & ?); discriminate]).
  - split.
    + intros E; injection E as <- <- <- <-. auto.
    + intros (E1 & E2 & E3 & E4). congruence.
  - apply IH.
Qed.

Lemma length_zip4 (la : list A) (lb : list B) (lc : list C) (ld : list D) :
  length (zip4 la lb lc ld) =
  Nat.min (length la) (Nat.min (length lb) (Nat.min (length lc) (length ld))).
Proof.
  revert lb lc ld; induction la as [|a' la IH];
    intros [|b' lb] [|c' lc] [|d' ld]; simpl; try reflexivity; try lia.
  rewrite IH. reflexivity.
Qed.
End Zip4.

Section Imap.
Context {A B : Type}.

Lemma length_imap_from (f : nat -> A -> B) (i : nat) (l : list A) :
  length (imap_from f i l) = length l.
Proof.
  revert i; induction l as [|a l IH]; intros i; simpl; [reflexivity | now rewrite IH].
Qed.

Lemma nth_error_imap_from (f : nat -> A -> B) (i j : nat) (l : list A) :
  nth_error (imap_from f i l) j = option_map (f (i + j)) (nth_error l j).
Proof.
  revert i j; induction l as [|a l IH]; intros i [|j]; simpl; try reflexivity.
  - now rewrite Nat.add_0_r.
  - rewrite IH. now replace (S i + j) with (i + S j) by lia.
Qed.
End Imap.

Lemma py_take_incl {A : Type} (k : Z) (l : list A) (a : A) :
  In a (py_take k l) -> In a l.
Proof.
  unfold py_take. destruct (k <? 0)%Z; apply In_firstn_In.
Qed.


(** A negative bound counts from the end, as a Python slice does. *)
Example py_take_negative : py_take (-1) [1; 2; 3] = [1; 2].
Proof. reflexivity. Qed.

Lemma StronglySorted_impl {A : Type} (R R' : A -> A -> Prop) (l : list A) :
  (forall a b, In a l -> In b l -> R a b -> R' a b) ->
  StronglySorted R l -> StronglySorted R' l.
Proof.
  intros HR HS; induction HS as [|a l HS IH Hall].
  - constructor.
  - constructor.
    + apply IH. intros x y Hx Hy. apply HR; now right.
    + rewrite Forall_forall in *. intros b Hb. apply HR; [now left | now right | auto].
Qed.

(* ------------------------------------------------------------------ *)
(** ** The instances meet what is assumed of the parameters *)

Section StableArgsortSpec.
Context {T : Type} `{ScalarOrder T}.

Lemma lt_at_asym (v : list T) (i j : nat) :
  lt_at v i j = true -> lt_at v j i = false.
Proof.
  unfold lt_at. destruct (nth_error v i), (nth_error v j); try discriminate.
  apply ltb_asym.
Qed.

Lemma lt_at_negtrans (v : list T) (i j k : nat) :
  j < length v -> lt_at v i j = false -> lt_at v j k = false -> lt_at v i k = false.
Proof.
  unfold lt_at. intros Hj.
  destruct (nth_error v j) as [b|] eqn:Ej.
  - destruct (nth_error v i), (nth_error v k); try reflexivity. apply ltb_negtrans.
  - apply nth_error_None in Ej. lia.
Qed.

Lemma insert_desc_perm (v : list T) (i : nat) (l : list nat) :
  Permutation (insert_desc v i l) (i :: l).
Proof.
  induction l as [|j l IH]; simpl.
  - reflexivity.
  - destruct (lt_at v i j).
    + rewrite IH. apply perm_swap.
    + reflexivity.
Qed.

Lemma insert_desc_sorted (v : list T) (i : nat) (l : list nat) :
  Forall (fun j => j < length v) l ->
  StronglySorted (fun a b => lt_at v a b = false) l ->
  StronglySorted (fun a b => lt_at v a b = false) (insert_desc v i l).
Proof.
  intros Hr HS; induction HS as [|j l HS IH Hall]; simpl.
  - repeat constructor.
  - inversion Hr as [|? ? Hj Hr']; subst.
    destruct (lt_at v i j) eqn:E.
    + constructor; [now apply IH |].
      apply Forall_forall. intros x Hx.
      apply (Permutation_in _ (insert_desc_perm v i l)) in Hx.
      destruct Hx as [<- | Hx]; [now apply lt_at_asym |].
      rewrite Forall_forall in Hall. now apply Hall.
    + constructor; [now constructor |].
      constructor; [assumption |].
      rewrite Forall_forall in *. intros x Hx.
      apply lt_at_negtrans with (j := j); auto.
Qed.

Lemma stable_argsort_spec : argsort_spec (T := T) stable_argsort.
Proof.
  intros v. unfold stable_argsort.
  assert (G : forall l, Forall (fun j => j < length v) l ->
     Permutation (fold_right (insert_desc v) [] l) l /\
     StronglySorted (fun a b => lt_at v a b = false) (fold_right (insert_desc v) [] l)).
  { induction l as [|i l IH]; intros Hl; simpl.
    - split; constructor.
    - inversion Hl as [|? ? Hi Hl']; subst. destruct (IH Hl') as [P S]. split.
      + rewrite insert_desc_perm. now constructor.
      + apply insert_desc_sorted; [| assumption].
        rewrite Forall_forall in *. intros x Hx. apply Hl'.
        now apply (Permutation_in _ P). }
  destruct (G (seq 0 (length v))) as [P S].
  { apply Forall_forall. intros j Hj. apply in_seq in Hj. lia. }
  split; [assumption |].
  eapply StronglySorted_impl; [| exact S].
  intros i j _ _ Hij a b Ha Hb. unfold lt_at in Hij.
  now rewrite Ha, Hb in Hij.
Qed.
End StableArgsortSpec.

#[export] Instance Q_ScalarOrder : @ScalarOrder Q Q_Scalar.
Proof.
  split; unfold ltb; simpl.
  - intros a b E. apply negb_true_iff in E. apply negb_false_iff.
    apply Qle_bool_iff. apply Qlt_le_weak. apply Qnot_le_lt.
    intros Hle. apply Qle_bool_iff in Hle. congruence.
  - intros a b c E1 E2. apply negb_false_iff in E1, E2. apply negb_false_iff.
    apply Qle_bool_iff in E1, E2. apply Qle_bool_iff.
    eapply Qle_trans; eassumption.
Qed.

Lemma center_to_corners_shape : shape_preserving center_to_corners.
Proof.
  intros b. unfold center_to_corners.
  do 5 (destruct b as [|? b]; try reflexivity).
Qed.




(* ------------------------------------------------------------------ *)
(** ** The scaling of one row *)

Section ScaleRow.
Context {T : Type} `{Scalar T}.

Lemma imul_row_Some (cols : list nat) (k : T) (r out : list T) :
  imul_row cols k r = Some out ->
  length out = length r /\
  forall j, nth_error out j =
            option_map (fun x => if existsb (Nat.eqb j) cols then mul x k else x)
                       (nth_error r j).
Proof.
  unfold imul_row. destruct (forallb _ cols); [| discriminate].
  intros E; injection E as <-. split.
  - apply length_imap_from.
  - intros j. now rewrite nth_error_imap_from.
Qed.

Lemma imul_row_total (cols : list nat) (k : T) (r : list T) :
  (forall c, In c cols -> c < length r) -> exists out, imul_row cols k r = Some out.
Proof.
  intros Hc. unfold imul_row.
  replace (forallb (fun c => c <? length r) cols) with true; [eauto |].
  symmetry. apply forallb_forall. intros c Hin. apply Nat.ltb_lt. auto.
Qed.


Lemma scale_row_total (im : Image) (row : list T) :
  4 <= length row -> exists out, scale_row im row = Some out.
Proof.
  intros L. unfold scale_row.
  destruct (@imul_row_total [0; 2] (of_Z (Z.of_nat (im_w im))) row) as (r1 & E1).
  { simpl; intros c [<- | [<- | []]]; lia. }
  rewrite E1. simpl. apply imul_row_total.
  apply imul_row_Some in E1 as [L1 _]. rewrite L1.
  simpl; intros c [<- | [<- | []]]; lia.
Qed.
End ScaleRow.

(* ------------------------------------------------------------------ *)
(** ** The maximum of a row *)

Section RowMax.
Context {T : Type} `{ScalarOrder T}.

Lemma ltb_irrefl (a : T) : ltb a a = false.
Proof.
  destruct (ltb a a) eqn:E; [| reflexivity].
  pose proof (ltb_asym _ _ E). congruence.
Qed.

Lemma ltb_le_lt (a b c : T) : ltb b a = false -> ltb b c = true -> ltb a c = true.
Proof.
  intros Hab Hbc. destruct (ltb a c) eqn:E; [reflexivity |].
  pose proof (ltb_negtrans _ _ _ Hab E). congruence.
Qed.

Lemma max_from_spec (l pre : list T) (best : T) (bi : nat) (m : T) (k : nat) :
  nth_error pre bi = Some best ->
  (forall s, In s pre -> ltb best s = false) ->
  (forall j s, j < bi -> nth_error pre j = Some s -> ltb s best = true) ->
  max_from best bi (length pre) l = (m, k) ->
  nth_error (pre ++ l) k = Some m /\
  (forall s, In s (pre ++ l) -> ltb m s = false) /\
  (forall j s, j < k -> nth_error (pre ++ l) j = Some s -> ltb s m = true).
Proof.
  revert pre best bi; induction l as [|x l IH]; intros pre best bi Hb Hge Hlt E.
  - simpl in E. injection E as <- <-. rewrite app_nil_r. auto.
  - simpl in E.
    assert (Hbi : bi < length pre) by (apply nth_error_Some; congruence).
    replace (S (length pre)) with (length (pre ++ [x])) in E
      by (rewrite length_app; simpl; lia).
    replace (pre ++ x :: l) with ((pre ++ [x]) ++ l) by (now rewrite <- app_assoc).
    destruct (ltb best x) eqn:Ex.
    + apply IH in E; [assumption | | |].
      * rewrite nth_error_app2 by lia. now rewrite Nat.sub_diag.
      * intros s Hs. apply in_app_or in Hs as [Hs | [<- | []]].
        -- apply ltb_negtrans with (b := best); [now apply ltb_asym | now apply Hge].
        -- apply ltb_irrefl.
      * intros j s Hj Hs. rewrite nth_error_app1 in Hs by assumption.
        apply ltb_le_lt with (b := best); [| assumption].
        apply Hge. eapply nth_error_In; eassumption.
    + apply IH in E; [assumption | | |].
      * rewrite nth_error_app1 by assumption. assumption.
      * intros s Hs. apply in_app_or in Hs as [Hs | [<- | []]]; auto.
      * intros j s Hj Hs. rewrite nth_error_app1 in Hs by lia. eauto.
Qed.

(** [row_max] returns a maximal entry and the first position where it
    stands. *)
Lemma row_max_spec (r : list T) (m : T) (c : Z) :
  row_max r = Some (m, c) ->
  (0 <= c)%Z /\
  nth_error r (Z.to_nat c) = Some m /\
  (forall s, In s r -> ltb m s = false) /\
  (forall j s, j < Z.to_nat c -> nth_error r j = Some s -> ltb s m = true).
Proof.
  destruct r as [|x l]; [discriminate |]. unfold row_max.
  destruct (max_from x 0 1 l) as [m' k] eqn:E. intros E'; injection E' as <- <-.
  rewrite Nat2Z.id. split; [lia |].
  apply (@max_from_spec l [x] x 0); auto.
  - intros s [<- | []]. apply ltb_irrefl.
  - intros j s Hj. lia.
Qed.
End RowMax.

Lemma row_max_total {T : Type} `{Scalar T} (r : list T) :
  r <> [] -> exists mc, row_max r = Some mc.
Proof.
  destruct r as [|x l]; [congruence |]. intros _. unfold row_max.
  destruct (max_from x 0 1 l). eauto.
Qed.


(* ------------------------------------------------------------------ *)
(** ** One image *)

Section ImageLemmas.
Context {T : Type} `{Scalar T}.
Variable xywh2xyxy : list T -> list T.
Variable argsort : list T -> list nat.
Variable self : Predictor T.

(** The tensor-wise filter of the code is the row-wise one. *)
Lemma pred_filtered (rows : list (list T)) (mi : list (T * Z)) :
  mask_select
    (cat_last (map xywh2xyxy (map (firstn 4) rows))
              (map (fun p => [fst p]) mi)
              (map (map of_Z) (map (fun p => [snd p]) mi)))
    (match classes (args self) with
     | Some cs =>
         and_mask (cls_in cs (map (fun p => [snd p]) mi))
                  (map (fun m => ltb (conf (args self)) m)
                       (squeeze_last (map (fun p => [fst p]) mi)))
     | None =>
         map (fun m => ltb (conf (args self)) m)
             (squeeze_last (map (fun p => [fst p]) mi))
     end)
  = filtered xywh2xyxy self rows mi.
Proof.
  unfold filtered, keep, squeeze_last.
  revert mi; induction rows as [|r rows IH]; intros [|[m c] mi]; simpl;
    try (destruct (classes (args self)); reflexivity).
  specialize (IH mi).
  destruct (classes (args self)) as [cs|]; simpl in *.
  - rewrite orb_false_r.
    destruct (existsb (Z.eqb c) cs && ltb (conf (args self)) m); simpl;
      now rewrite IH.
  - destruct (ltb (conf (args self)) m); simpl; now rewrite IH.
Qed.

Lemma imul_cols_twice (c1 c2 : list nat) (k1 k2 : T) (p p2 : list (list T)) :
  bind (imul_cols c1 k1 p) (imul_cols c2 k2) = Some p2 <->
  Forall2 (fun r out => bind (imul_row c1 k1 r) (imul_row c2 k2) = Some out) p p2.
Proof.
  unfold imul_cols. revert p2; induction p as [|r p IH]; intros p2; simpl.
  - split; intros E.
    + injection E as <-. constructor.
    + inversion E. reflexivity.
  - split; intros E.
    + apply bind_Some in E as (q & Eq & E).
      apply bind_Some in Eq as (r1 & Er1 & Eq).
      apply bind_Some in Eq as (q1 & Eq1 & Eq). injection Eq as <-.
      simpl in E. apply bind_Some in E as (r2 & Er2 & E).
      apply bind_Some in E as (q2 & Eq2 & E). injection E as <-.
      constructor.
      * rewrite Er1. exact Er2.
      * apply IH. rewrite Eq1. exact Eq2.
    + inversion E as [|? out ? p2' Er Ep]; subst.
      apply bind_Some in Er as (r1 & Er1 & Er2).
      apply IH in Ep. apply bind_Some in Ep as (q1 & Eq1 & Eq2).
      rewrite Er1, Eq1. simpl. rewrite Er2. simpl.
      rewrite Eq2. reflexivity.
Qed.

(** What a successful run of the loop body returns. *)
Lemma postprocess_image_inv (nc : nat) (rows : list (list T)) (im : Image)
    (pth : String.string) (res : Results T) :
  argsort_spec argsort ->
  postprocess_image xywh2xyxy argsort self nc
    (map (firstn 4) rows) (map (skipn 4) rows) im pth = Some res ->
  exists mi S,
    mapM row_max (map (skipn 4) rows) = Some mi /\
    Permutation S (filtered xywh2xyxy self rows mi) /\
    StronglySorted conf_ge S /\
    Forall2 (fun k out => scale_row im k = Some out)
            (py_take (max_det (args self)) S) (boxes res) /\
    orig_img res = im /\ path res = pth /\ res_names res = names self.
Proof.
  intros Hsort E. unfold postprocess_image in E.
  apply bind_Some in E as ([ms cls] & Emax & E).
  unfold tensor_max in Emax. destruct (nc =? 0); [discriminate |].
  apply bind_Some in Emax as (mi & Emi & Emax). injection Emax as <- <-.
  cbv zeta in E. rewrite pred_filtered in E.
  apply bind_Some in E as (key & Ekey & E).
  apply bind_Some in E as (S & ES & E).
  unfold shape2 in E.
  change (bind (imul_cols [0; 2] (of_Z (Z.of_nat (im_w im)))
                  (py_take (max_det (args self)) S))
               (fun pred => bind (imul_cols [1; 3] (of_Z (Z.of_nat (im_h im))) pred)
                  (fun pred0 => Some {| orig_img := im; path := pth;
                      res_names := names self; boxes := pred0 |})) = Some res) in E.
  apply bind_Some in E as (p1 & Ep1 & E).
  apply bind_Some in E as (p2 & Ep2 & E). injection E as <-. simpl.
  exists mi, S. split; [exact Emi |].
  set (F := filtered xywh2xyxy self rows mi) in *.
  destruct (Hsort key) as [Hperm Hsorted].
  assert (Hlen : length key = length F) by (eapply mapM_length; exact Ekey).
  unfold index_select in ES.
  split; [| split; [| split; [| auto]]].
  - rewrite Hlen in Hperm.
    destruct (mapM_Permutation (Permutation_sym Hperm)
                (nth_error_seq_all F)) as (S' & ES' & HP).
    rewrite ES in ES'. injection ES' as <-. now apply Permutation_sym.
  - apply mapM_Forall2 in ES. apply mapM_Forall2 in Ekey.
    eapply StronglySorted_Forall2; [| exact ES | exact Hsorted].
    intros i j a b Hi Hj Hij x y Hx Hy. cbv beta in Hi, Hj.
    destruct (Forall2_nth_error_l Ekey Hi) as (x' & Hx' & Ex').
    destruct (Forall2_nth_error_l Ekey Hj) as (y' & Hy' & Ey').
    cbv beta in Ex', Ey'. apply Hij; congruence.
  - apply imul_cols_twice. rewrite Ep1. exact Ep2.
Qed.

Lemma filtered_row_length (rows : list (list T)) (mi : list (T * Z)) (nd : nat) :
  shape_preserving xywh2xyxy -> 4 <= nd ->
  Forall (fun r => length r = nd) rows ->
  Forall (fun row => length row = 6) (filtered xywh2xyxy self rows mi).
Proof.
  intros Hs Hnd Hrows. apply Forall_forall. intros row Hrow.
  unfold filtered in Hrow. apply in_map_iff in Hrow as ([r mc] & <- & Hin).
  apply filter_In in Hin as [Hin _]. apply in_combine_l in Hin.
  rewrite Forall_forall in Hrows. specialize (Hrows r Hin).
  cbn [fst snd]. unfold build. rewrite length_app, Hs, length_firstn, Hrows.
  cbn [length app]. lia.
Qed.

(** On a well-formed image with at least one class the loop body returns. *)
Lemma postprocess_image_total (nd : nat) (rows : list (list T)) (im : Image)
    (pth : String.string) :
  shape_preserving xywh2xyxy -> argsort_spec argsort ->
  5 <= nd -> Forall (fun r => length r = nd) rows ->
  exists res,
    postprocess_image xywh2xyxy argsort self (nd - 4)
      (map (firstn 4) rows) (map (skipn 4) rows) im pth = Some res.
Proof.
  intros Hs Hsort Hnd Hrows. unfold postprocess_image, tensor_max.
  destruct (Nat.eqb_spec (nd - 4) 0) as [E0 | _]; [lia |].
  destruct (mapM_total (f := row_max) (l := map (skipn 4) rows)) as (mi & Emi).
  { intros s Hin. apply in_map_iff in Hin as (r & <- & Hr).
    apply row_max_total. rewrite Forall_forall in Hrows. specialize (Hrows r Hr).
    intros E. apply (f_equal (@length T)) in E. rewrite length_skipn in E.
    simpl in E. lia. }
  rewrite Emi. cbn [bind]. cbv zeta. rewrite pred_filtered.
  set (F := filtered xywh2xyxy self rows mi).
  assert (HF : Forall (fun row => length row = 6) F).
  { apply filtered_row_length with (nd := nd); auto. lia. }
  destruct (mapM_total (f := fun r => nth_error r 4) (l := F)) as (key & Ekey).
  { intros row Hrow. rewrite Forall_forall in HF. specialize (HF row Hrow).
    destruct (nth_error row 4) eqn:E; [eauto |].
    apply nth_error_None in E. lia. }
  unfold column. rewrite Ekey. cbn [bind].
  destruct (Hsort key) as [Hperm _].
  rewrite (mapM_length Ekey) in Hperm.
  destruct (mapM_Permutation (Permutation_sym Hperm) (nth_error_seq_all F))
    as (S & ES & HP).
  unfold index_select. rewrite ES. cbn [bind].
  assert (HK : Forall (fun row => length row = 6) (py_take (max_det (args self)) S)).
  { apply Forall_forall. intros row Hrow. apply py_take_incl in Hrow.
    rewrite Forall_forall in HF. apply HF.
    apply (Permutation_in _ (Permutation_sym HP)). exact Hrow. }
  destruct (mapM_total (f := scale_row im) (l := py_take (max_det (args self)) S))
    as (p2 & Ep2).
  { intros row Hrow. apply scale_row_total.
    rewrite Forall_forall in HK. rewrite (HK row Hrow). lia. }
  apply mapM_Forall2 in Ep2. apply imul_cols_twice in Ep2.
  apply bind_Some in Ep2 as (p1 & Ep1 & Ep2).
  unfold shape2. rewrite Ep1. cbn [bind]. rewrite Ep2. cbn [bind]. eauto.
Qed.
End ImageLemmas.


(* ------------------------------------------------------------------ *)
(** ** The batch *)

Section BatchLemmas.
Context {T : Type} `{Scalar T}.
Variable xywh2xyxy : list T -> list T.
Variable argsort : list T -> list nat.
Variable convert_torch2numpy_batch : Tensor4 T -> list Image.
Variable self : Predictor T.

Lemma wf_tensor_row (p0 : Tensor3 T) (i : nat) (rows : list (list T)) (r : list T) :
  wf_tensor p0 = true -> nth_error (t_data p0) i = Some rows -> In r rows ->
  length r = t_nd p0.
Proof.
  unfold wf_tensor. intros Hwf Hi Hr.
  rewrite forallb_forall in Hwf. specialize (Hwf rows (nth_error_In _ _ Hi)).
  rewrite forallb_forall in Hwf. specialize (Hwf r Hr).
  now apply Nat.eqb_eq.
Qed.

Lemma split_last_Some (p0 : Tensor3 T) (bboxes scores : list (list (list T))) :
  split_last p0 = Some (bboxes, scores) ->
  4 <= t_nd p0 /\
  bboxes = map (map (firstn 4)) (t_data p0) /\
  scores = map (map (skipn 4)) (t_data p0).
Proof.
  unfold split_last. destruct (Nat.ltb_spec (t_nd p0) 4); [discriminate |].
  intros E; injection E as <- <-. auto.
Qed.

(** The loop runs the body once per tuple of the [zip]. *)
Lemma postprocess_inv (preds : Preds T) (img : Tensor4 T) (orig_imgs : OrigImgs T)
    (results : list (Results T)) :
  postprocess xywh2xyxy argsort convert_torch2numpy_batch self preds img orig_imgs
    = Some results ->
  exists p0,
    item0 (as_list preds) = Some p0 /\ 4 <= t_nd p0 /\
    length results =
      Nat.min (length (t_data p0))
        (Nat.min (length (images_of convert_torch2numpy_batch orig_imgs))
                 (length (paths (batch self)))) /\
    forall i res, nth_error results i = Some res ->
      exists rows im pth,
        nth_error (t_data p0) i = Some rows /\
        nth_error (images_of convert_torch2numpy_batch orig_imgs) i = Some im /\
        nth_error (paths (batch self)) i = Some pth /\
        postprocess_image xywh2xyxy argsort self (t_nd p0 - 4)
          (map (firstn 4) rows) (map (skipn 4) rows) im pth = Some res.
Proof.
  unfold postprocess. intros E.
  apply bind_Some in E as (p0 & Ep0 & E).
  apply bind_Some in E as ([bboxes scores] & Esplit & E).
  apply split_last_Some in Esplit as (Hnd & -> & ->).
  exists p0. split; [exact Ep0 |]. split; [assumption |].
  fold (images_of convert_torch2numpy_batch orig_imgs) in E.
  split.
  - apply mapM_length in E. rewrite E, length_zip4, !length_map. lia.
  - intros i res Hi. apply mapM_Forall2 in E.
    destruct (Forall2_nth_error_r E Hi) as ([[[bbox score] im] pth] & Hz & Hres).
    apply nth_error_zip4 in Hz as (Hb & Hs & Him & Hp).
    rewrite nth_error_map in Hb. rewrite nth_error_map in Hs.
    destruct (nth_error (t_data p0) i) as [rows|] eqn:Hrows; [| discriminate].
    cbn [option_map] in Hb, Hs. injection Hb as <-. injection Hs as <-.
    exists rows, im, pth. auto.
Qed.

(** Every row of a returned [boxes] comes from a prediction row of the same
    image that passed the filter. *)
Lemma retained_row (preds : Preds T) (img : Tensor4 T) (orig_imgs : OrigImgs T)
    (results : list (Results T)) (i : nat) (res : Results T) (out : list T) :
  argsort_spec argsort ->
  postprocess xywh2xyxy argsort convert_torch2numpy_batch self preds img orig_imgs
    = Some results ->
  nth_error results i = Some res -> In out (boxes res) ->
  exists rows r mc im,
    rows_of preds i = Some rows /\ In r rows /\
    row_max (skipn 4 r) = Some mc /\ keep self mc = true /\
    nth_error (images_of convert_torch2numpy_batch orig_imgs) i = Some im /\
    orig_img res = im /\
    scale_row im (build xywh2xyxy r mc) = Some out.
Proof.
  intros Hsort E Hi Hout.
  apply postprocess_inv in E as (p0 & Ep0 & Hnd & _ & Hall).
  destruct (Hall i res Hi) as (rows & im & pth & Hrows & Him & Hp & Eimg).
  apply postprocess_image_inv in Eimg as (mi & S & Emi & HP & _ & HF & Ho & _);
    [| assumption].
  destruct (Forall2_In_r HF Hout) as (k & Hk & Hscale).
  apply py_take_incl in Hk.
  apply (Permutation_in _ HP) in Hk. unfold filtered in Hk.
  apply in_map_iff in Hk as ([r mc] & <- & Hk).
  apply filter_In in Hk as [Hk Hkeep]. cbn [fst snd] in *.
  apply mapM_Forall2 in Emi. apply Forall2_map_l in Emi.
  pose proof (Forall2_combine_In Emi Hk) as Hmax. cbv beta in Hmax.
  exists rows, r, mc, im. unfold rows_of. rewrite Ep0. cbn [bind].
  repeat split; auto.
  eapply in_combine_l; eassumption.
Qed.
End BatchLemmas.

(* ------------------------------------------------------------------ *)
(** ** Properties of [postprocess] *)

Lemma keep_conf {T : Type} `{Scalar T} (self : Predictor T) (mc : T * Z) :
  keep self mc = true -> ltb (conf (args self)) (fst mc) = true.
Proof.
  unfold keep. destruct (classes (args self)); [| auto].
  intros E. now apply andb_true_iff in E.
Qed.


Lemma list_four {A : Type} (l : list A) :
  length l = 4 -> exists a b c d, l = [a; b; c; d].
Proof.
  do 5 (destruct l as [|? l]; try discriminate). eauto.
Qed.

Section Claims.
Context {T : Type} `{Scalar T}.
Variable xywh2xyxy : list T -> list T.
Variable argsort : list T -> list nat.
Variable convert_torch2numpy_batch : Tensor4 T -> list Image.
Variable self : Predictor T.

Hypothesis xywh2xyxy_shape : shape_preserving xywh2xyxy.
Hypothesis argsort_ok : argsort_spec argsort.

(** The columns of a returned row, in terms of the prediction row it was
    built from. *)
Lemma retained_columns (preds : Preds T) (img : Tensor4 T) (orig_imgs : OrigImgs T)
    (results : list (Results T)) (i : nat) (res : Results T) (out : list T) :
  wf_preds preds = true ->
  postprocess xywh2xyxy argsort convert_torch2numpy_batch self preds img orig_imgs
    = Some results ->
  nth_error results i = Some res -> In out (boxes res) ->
  exists rows r m c x1 y1 x2 y2,
    rows_of preds i = Some rows /\ In r rows /\
    row_max (skipn 4 r) = Some (m, c) /\ keep self (m, c) = true /\
    nth_error (images_of convert_torch2numpy_batch orig_imgs) i = Some (orig_img res) /\
    xywh2xyxy (firstn 4 r) = [x1; y1; x2; y2] /\
    out = [mul x1 (of_Z (Z.of_nat (im_w (orig_img res))));
           mul y1 (of_Z (Z.of_nat (im_h (orig_img res))));
           mul x2 (of_Z (Z.of_nat (im_w (orig_img res))));
           mul y2 (of_Z (Z.of_nat (im_h (orig_img res))));
           m; of_Z c].
Proof.
  intros Hwf E Hi Hout.
  destruct (retained_row argsort_ok E Hi Hout)
    as (rows & r & [m c] & im & Hrows & Hr & Hmax & Hkeep & Him & Ho & Hscale).
  subst im.
  assert (Hlen : 4 <= length r).
  { apply postprocess_inv in E as (p0 & Ep0 & Hnd & _).
    unfold wf_preds in Hwf. unfold rows_of in Hrows. rewrite Ep0 in Hwf, Hrows.
    cbn [bind] in Hrows. rewrite (wf_tensor_row Hwf Hrows Hr). exact Hnd. }
  assert (L4 : length (xywh2xyxy (firstn 4 r)) = 4).
  { rewrite xywh2xyxy_shape, length_firstn. lia. }
  destruct (list_four L4) as (x1 & y1 & x2 & y2 & Hb).
  exists rows, r, m, c, x1, y1, x2, y2.
  repeat (split; [assumption |]).
  unfold build in Hscale. rewrite Hb in Hscale. cbn in Hscale.
  now injection Hscale as <-.
Qed.

(** C1: every row of every returned [boxes] carries in column 4 the maximal
    class score of the prediction row it comes from, and that score is
    strictly above [self.args.conf]. *)
Theorem postprocess_conf_above_threshold (preds : Preds T) (img : Tensor4 T)
    (orig_imgs : OrigImgs T) (results : list (Results T)) (i : nat)
    (res : Results T) (out : list T) :
  wf_preds preds = true ->
  postprocess xywh2xyxy argsort convert_torch2numpy_batch self preds img orig_imgs
    = Some results ->
  nth_error results i = Some res -> In out (boxes res) ->
  exists rows r m c,
    rows_of preds i = Some rows /\ In r rows /\
    row_max (skipn 4 r) = Some (m, c) /\
    nth_error out 4 = Some m /\
    ltb (conf (args self)) m = true.
Proof.
  intros Hwf E Hi Hout.
  destruct (retained_columns Hwf E Hi Hout)
    as (rows & r & m & c & x1 & y1 & x2 & y2 & Hrows & Hr & Hmax & Hkeep & _ & _ & ->).
  exists rows, r, m, c. repeat (split; [assumption |]).
  split; [reflexivity |]. exact (keep_conf Hkeep).
Qed.

(** C2: the first four columns of a returned row are the corner box
    [xywh2xyxy] gives for the prediction row's box, columns 0 and 2 times
    the width and columns 1 and 3 times the height of the original image,
    both read from [orig_img.shape[:2]]. *)
Theorem postprocess_box_scaled (preds : Preds T) (img : Tensor4 T)
    (orig_imgs : OrigImgs T) (results : list (Results T)) (i : nat)
    (res : Results T) (out : list T) :
  wf_preds preds = true ->
  postprocess xywh2xyxy argsort convert_torch2numpy_batch self preds img orig_imgs
    = Some results ->
  nth_error results i = Some res -> In out (boxes res) ->
  exists rows r x1 y1 x2 y2 oh ow,
    rows_of preds i = Some rows /\ In r rows /\
    nth_error (images_of convert_torch2numpy_batch orig_imgs) i = Some (orig_img res) /\
    shape2 (orig_img res) = (oh, ow) /\
    xywh2xyxy (firstn 4 r) = [x1; y1; x2; y2] /\
    firstn 4 out = [mul x1 (of_Z (Z.of_nat ow)); mul y1 (of_Z (Z.of_nat oh));
                    mul x2 (of_Z (Z.of_nat ow)); mul y2 (of_Z (Z.of_nat oh))].
Proof.
  intros Hwf E Hi Hout.
  destruct (retained_columns Hwf E Hi Hout)
    as (rows & r & m & c & x1 & y1 & x2 & y2 & Hrows & Hr & _ & _ & Him & Hb & ->).
  exists rows, r, x1, y1, x2, y2, (im_h (orig_img res)), (im_w (orig_img res)).
  repeat (split; [assumption |]). split; [reflexivity |].
  split; [assumption | reflexivity].
Qed.



(** C7: a bare tensor is handled as the list [[preds, None]]. *)
Theorem postprocess_bare_tensor (t : Tensor3 T) (img : Tensor4 T)
    (orig_imgs : OrigImgs T) :
  postprocess xywh2xyxy argsort convert_torch2numpy_batch self (PTensor t) img orig_imgs
  = postprocess xywh2xyxy argsort convert_torch2numpy_batch self
      (PList [Some t; None]) img orig_imgs.
Proof.
  reflexivity.
Qed.


(** C10: [img] has no influence on what [postprocess] returns. *)
Theorem postprocess_img_independent (preds : Preds T) (img img' : Tensor4 T)
    (orig_imgs : OrigImgs T) :
  postprocess xywh2xyxy argsort convert_torch2numpy_batch self preds img orig_imgs
  = postprocess xywh2xyxy argsort convert_torch2numpy_batch self preds img' orig_imgs.
Proof.
  reflexivity.
Qed.
End Claims.

(** C1 on the demo batch: the best row of the first image. *)
Lemma postprocess_conf_above_threshold_witness :
  exists rows r m c,
    rows_of (PTensor Demo.preds0) 0 = Some rows /\ In r rows /\
    row_max (skipn 4 r) = Some (m, c) /\
    nth_error Demo.row_all0 4 = Some m /\
    ltb (conf (args Demo.self_all)) m = true.
Proof.
  apply (@postprocess_conf_above_threshold Q Q_Scalar center_to_corners stable_argsort
           (fun _ => []) Demo.self_all center_to_corners_shape stable_argsort_spec
           (PTensor Demo.preds0) [] Demo.imgs0 Demo.results_all 0 Demo.res_all0).
  - reflexivity.
  - vm_compute; reflexivity.
  - reflexivity.
  - left; reflexivity.
Defined.

(** C2 on the demo batch: the best row of the first image. *)
Lemma postprocess_box_scaled_witness :
  exists rows r x1 y1 x2 y2 oh ow,
    rows_of (PTensor Demo.preds0) 0 = Some rows /\ In r rows /\
    nth_error (images_of (fun _ => []) Demo.imgs0) 0 = Some (orig_img Demo.res_all0) /\
    shape2 (orig_img Demo.res_all0) = (oh, ow) /\
    center_to_corners (firstn 4 r) = [x1; y1; x2; y2] /\
    firstn 4 Demo.row_all0 =
      [mul x1 (of_Z (Z.of_nat ow)); mul y1 (of_Z (Z.of_nat oh));
       mul x2 (of_Z (Z.of_nat ow)); mul y2 (of_Z (Z.of_nat oh))].
Proof.
  apply (@postprocess_box_scaled Q Q_Scalar center_to_corners stable_argsort
           (fun _ => []) Demo.self_all center_to_corners_shape stable_argsort_spec
           (PTensor Demo.preds0) [] Demo.imgs0 Demo.results_all 0 Demo.res_all0).
  - reflexivity.
  - vm_compute; reflexivity.
  - reflexivity.
  - left; reflexivity.
Defined.

Section ClaimsOrder.
Context {T : Type} `{ScalarOrder T}.
Variable xywh2xyxy : list T -> list T.
Variable argsort : list T -> list nat.
Variable convert_torch2numpy_batch : Tensor4 T -> list Image.
Variable self : Predictor T.

Hypothesis xywh2xyxy_shape : shape_preserving xywh2xyxy.
Hypothesis argsort_ok : argsort_spec argsort.

(** C5: the split gives every prediction row its first 4 entries as the
    box and the other [nd - 4] as the class scores; column 4 of a returned
    row is a maximal score of its prediction row and column 5 the position
    of that score among the class scores. *)
Theorem postprocess_split_max (preds : Preds T) (img : Tensor4 T)
    (orig_imgs : OrigImgs T) (results : list (Results T)) :
  wf_preds preds = true ->
  postprocess xywh2xyxy argsort convert_torch2numpy_batch self preds img orig_imgs
    = Some results ->
  (exists p0 bboxes scores,
     item0 (as_list preds) = Some p0 /\
     split_last p0 = Some (bboxes, scores) /\
     bboxes = map (map (firstn 4)) (t_data p0) /\
     scores = map (map (skipn 4)) (t_data p0) /\
     forall rows r, In rows (t_data p0) -> In r rows ->
       length (firstn 4 r) = 4 /\ length (skipn 4 r) = t_nd p0 - 4 /\
       firstn 4 r ++ skipn 4 r = r) /\
  (forall i res out,
     nth_error results i = Some res -> In out (boxes res) ->
     exists rows r m c,
       rows_of preds i = Some rows /\ In r rows /\
       nth_error out 4 = Some m /\ nth_error out 5 = Some (of_Z c) /\
       (0 <= c)%Z /\
       nth_error (skipn 4 r) (Z.to_nat c) = Some m /\
       forall s, In s (skipn 4 r) -> ltb m s = false).
Proof.
  intros Hwf E. split.
  - pose proof E as E'. unfold postprocess in E'.
    apply bind_Some in E' as (p0 & Ep0 & E').
    apply bind_Some in E' as ([bboxes scores] & Esplit & _).
    exists p0, bboxes, scores. split; [exact Ep0 |]. split; [exact Esplit |].
    apply split_last_Some in Esplit as (Hnd & Hb & Hs).
    split; [exact Hb |]. split; [exact Hs |].
    intros rows r Hrows Hr. apply In_nth_error in Hrows as (j & Hj).
    unfold wf_preds in Hwf. rewrite Ep0 in Hwf.
    pose proof (wf_tensor_row Hwf Hj Hr) as L.
    rewrite length_firstn, length_skipn, firstn_skipn, L. repeat split. lia.
  - intros i res out Hi Hout.
    destruct (retained_columns xywh2xyxy_shape argsort_ok Hwf E Hi Hout)
      as (rows & r & m & c & x1 & y1 & x2 & y2 & Hrows & Hr & Hmax & _ & _ & _ & ->).
    apply row_max_spec in Hmax as (Hc & Hnth & Hge & _).
    exists rows, r, m, c. repeat (split; [assumption || reflexivity |]).
    exact Hge.
Qed.
End ClaimsOrder.

Section PreTransformClaims.
Context {T : Type}.
Variable LetterBox : ImgSz -> bool -> bool -> Image -> Image.

(** C6: [pre_transform] returns one image per input image, the [i]-th one
    being the [i]-th input letterboxed to [self.imgsz] with [auto=False]
    and [scale_fill=True]. *)
Theorem pre_transform_letterboxes (self : Predictor T) (im : list Image) :
  length (pre_transform LetterBox self im) = length im /\
  forall i x, nth_error im i = Some x ->
    nth_error (pre_transform LetterBox self im) i
    = Some (LetterBox (imgsz self) false true x).
Proof.
  unfold pre_transform. split.
  - apply length_map.
  - intros i x Hx. rewrite nth_error_map, Hx. reflexivity.
Qed.
End PreTransformClaims.



(** C5 on the demo batch. *)
Lemma postprocess_split_max_witness :
  (exists p0 bboxes scores,
     item0 (as_list (PTensor Demo.preds0)) = Some p0 /\
     split_last p0 = Some (bboxes, scores) /\
     bboxes = map (map (firstn 4)) (t_data p0) /\
     scores = map (map (skipn 4)) (t_data p0) /\
     forall rows r, In rows (t_data p0) -> In r rows ->
       length (firstn 4 r) = 4 /\ length (skipn 4 r) = t_nd p0 - 4 /\
       firstn 4 r ++ skipn 4 r = r) /\
  (forall i res out,
     nth_error Demo.results_all i = Some res -> In out (boxes res) ->
     exists rows r m c,
       rows_of (PTensor Demo.preds0) i = Some rows /\ In r rows /\
       nth_error out 4 = Some m /\ nth_error out 5 = Some (of_Z c) /\
       (0 <= c)%Z /\
       nth_error (skipn 4 r) (Z.to_nat c) = Some m /\
       forall s, In s (skipn 4 r) -> ltb m s = false).
Proof.
  apply (@postprocess_split_max Q Q_Scalar Q_ScalarOrder center_to_corners
           stable_argsort (fun _ => []) Demo.self_all center_to_corners_shape
           stable_argsort_spec (PTensor Demo.preds0) [] Demo.imgs0 Demo.results_all).
  - reflexivity.
  - vm_compute; reflexivity.
Defined.


(* ------------------------------------------------------------------ *)
(** ** The store: frames *)

Lemma length_set_nth {A : Type} (i : nat) (a : A) (l : list A) :
  length (set_nth i a l) = length l.
Proof.
  revert i; induction l as [|x l IH]; intros [|i]; simpl; auto.
Qed.

Lemma nth_error_set_nth_ne {A : Type} (i j : nat) (a : A) (l : list A) :
  i <> j -> nth_error (set_nth i a l) j = nth_error l j.
Proof.
  revert i j; induction l as [|x l IH]; intros [|i] [|j] Hij; simpl; auto;
    congruence.
Qed.


Section FrameLemmas.
Context {T : Type} `{Scalar T}.

Lemma frame_refl (n : nat) (s : State T) : frame n s s.
Proof.
  repeat split; auto. exists []. split; [reflexivity | constructor].
Qed.

Lemma frame_trans (n : nat) (s1 s2 s3 : State T) :
  frame n s1 s2 -> frame n s2 s3 -> frame n s1 s3.
Proof.
  intros (L1 & N1 & S1 & w1 & W1 & F1) (L2 & N2 & S2 & w2 & W2 & F2).
  repeat split.
  - lia.
  - intros l Hl. rewrite N2, N1; auto.
  - congruence.
  - exists (w2 ++ w1). rewrite W2, W1, app_assoc. split; [reflexivity |].
    apply Forall_app; auto.
Qed.

Lemma safe_ret {A : Type} (n : nat) (a : A) (Q : A -> Prop) :
  Q a -> safe (T := T) n (ret a) Q.
Proof.
  intros HQ s _. split; [apply frame_refl |]. simpl. intros a' E. now injection E as <-.
Qed.

Lemma safe_bind {A B : Type} (n : nat) (m : M T A) (k : A -> M T B)
    (Q : A -> Prop) (R : B -> Prop) :
  safe n m Q -> (forall a, Q a -> safe (T := T) n (k a) R) -> safe (T := T) n (bindM m k) R.
Proof.
  intros Hm Hk s Hn. unfold bindM.
  destruct (Hm s Hn) as [Hf Hq]. destruct (m s) as [[a|] s1]; simpl in *.
  - destruct (Hk a (Hq a eq_refl) s1) as [Hf' Hr]; [destruct Hf; lia |].
    split; [eapply frame_trans; eassumption | exact Hr].
  - split; [exact Hf | discriminate].
Qed.

Lemma safe_conseq {A : Type} (n : nat) (m : M T A) (Q Q' : A -> Prop) :
  safe n m Q -> (forall a, Q a -> Q' a) -> safe n m Q'.
Proof.
  intros Hm HQ s Hn. destruct (Hm s Hn) as [Hf Hq]. split; auto.
Qed.

(** A computation that returns the state it was given. *)
Lemma safe_reader {A : Type} (n : nat) (m : M T A) :
  (forall s, snd (m s) = s) -> safe n m (fun _ => True).
Proof.
  intros Hm s _. rewrite Hm. split; [apply frame_refl | auto].
Qed.

Lemma safe_lift {A : Type} (n : nat) (o : option A) :
  safe (T := T) n (lift o) (fun _ => True).
Proof. apply safe_reader. reflexivity. Qed.

Lemma safe_get_self (n : nat) : safe n get_self (fun _ : Predictor T => True).
Proof. apply safe_reader. reflexivity. Qed.

Lemma safe_read2 (n : nat) (v : View) : safe (T := T) n (read2 v) (fun _ => True).
Proof.
  apply safe_reader. intros s. unfold read2.
  destruct (nth_error (st_heap s) (v_cell v)) as [[d| |]|]; try reflexivity.
  destruct (nth_error d (v_block v)); reflexivity.
Qed.

Lemma safe_read3 (n : nat) (w : View3) : safe (T := T) n (read3 w) (fun _ => True).
Proof.
  apply safe_reader. intros s. unfold read3.
  destruct (nth_error (st_heap s) (w_cell w)) as [[d| |]|]; reflexivity.
Qed.

Lemma safe_read4 (n : nat) (c : nat) : safe (T := T) n (read4 c) (fun _ => True).
Proof.
  apply safe_reader. intros s. unfold read4.
  destruct (nth_error (st_heap s) c) as [[d| |]|]; reflexivity.
Qed.

Lemma safe_read_image (n : nat) (c : nat) : safe (T := T) n (read_image c) (fun _ => True).
Proof.
  apply safe_reader. intros s. unfold read_image.
  destruct (nth_error (st_heap s) c) as [[d| |]|]; reflexivity.
Qed.

(** A new cell is at [n] or above. *)
Lemma safe_alloc (n : nat) (c : Cell T) : safe (T := T) n (alloc c) (fun l => n <= l).
Proof.
  intros s Hn. unfold alloc; simpl. split.
  - repeat split; simpl.
    + rewrite length_app. lia.
    + intros l Hl. apply nth_error_app1. lia.
    + exists []. split; [reflexivity | constructor].
  - intros a E. injection E as <-. exact Hn.
Qed.

Lemma safe_alloc2 (n : nat) (m : list (list T)) :
  safe (T := T) n (alloc2 m) (fun v => n <= v_cell v).
Proof.
  unfold alloc2. eapply safe_bind; [apply safe_alloc |].
  intros c Hc. apply safe_ret. exact Hc.
Qed.

(** A write through a view of a cell at [n] or above keeps the frame. *)
Lemma safe_store2 (n : nat) (v : View) (new : list (list T)) :
  n <= v_cell v -> safe (T := T) n (store2 v new) (fun _ => True).
Proof.
  intros Hv s Hn. unfold store2.
  destruct (nth_error (st_heap s) (v_cell v)) as [[d| |]|];
    try (split; [apply frame_refl | auto]).
  destruct (nth_error d (v_block v)) as [m|]; [| split; [apply frame_refl | auto]].
  destruct (_ && _); [| split; [apply frame_refl | auto]].
  simpl. split; [| auto]. repeat split; simpl.
  - rewrite length_set_nth. lia.
  - intros l Hl. apply nth_error_set_nth_ne. lia.
  - exists [v_cell v]. split; [reflexivity |]. constructor; [exact Hv | constructor].
Qed.

Lemma safe_mapM_st {A B : Type} (n : nat) (f : A -> M T B) (Q : B -> Prop)
    (l : list A) :
  (forall a, safe (T := T) n (f a) Q) -> safe (T := T) n (mapM_st f l) (Forall Q).
Proof.
  intros Hf. induction l as [|a l IH]; simpl.
  - apply safe_ret. constructor.
  - eapply safe_bind; [apply Hf |]. intros b Hb.
    eapply safe_bind; [apply IH |]. intros bs Hbs.
    apply safe_ret. now constructor.
Qed.

Lemma safe_slice_rows (n : nat) (v : View) (k : Z) :
  n <= v_cell v -> safe (T := T) n (slice_rows v k) (fun v' => n <= v_cell v').
Proof.
  intros Hv. unfold slice_rows. eapply safe_bind; [apply safe_read2 |].
  intros m _. apply safe_ret. exact Hv.
Qed.

Lemma safe_split3 (n : nat) (w : View3) : safe (T := T) n (split3 w) (fun _ => True).
Proof.
  unfold split3. destruct (w_ncol w <? 4); [apply safe_lift | now apply safe_ret].
Qed.

Lemma safe_iter3 (n : nat) (w : View3) : safe (T := T) n (iter3 w) (fun _ => True).
Proof.
  unfold iter3. eapply safe_bind; [apply safe_read3 |].
  intros d _. now apply safe_ret.
Qed.
End FrameLemmas.

Section AllocLemmas.
Context {T : Type} `{Scalar T}.

Lemma allocates_only_reader {A : Type} (m : M T A) :
  (forall s, snd (m s) = s) -> allocates_only m.
Proof.
  intros Hm s. rewrite Hm. split; [exists []; now rewrite app_nil_r | auto].
Qed.

Lemma allocates_only_ret {A : Type} (a : A) : allocates_only (T := T) (ret a).
Proof. apply allocates_only_reader. reflexivity. Qed.

Lemma allocates_only_alloc (c : Cell T) : allocates_only (alloc c).
Proof.
  intros s. unfold alloc; simpl. split; [eauto | auto].
Qed.

Lemma allocates_only_bind {A B : Type} (m : M T A) (k : A -> M T B) :
  allocates_only m -> (forall a, allocates_only (k a)) -> allocates_only (bindM m k).
Proof.
  intros Hm Hk s. unfold bindM.
  destruct (Hm s) as ((e1 & E1) & S1 & L1). destruct (m s) as [[a|] s1]; simpl in *.
  - destruct (Hk a s1) as ((e2 & E2) & S2 & L2).
    split; [| split; congruence].
    exists (e1 ++ e2). now rewrite E2, E1, app_assoc.
  - split; eauto.
Qed.

Lemma allocates_only_mapM_st {A B : Type} (f : A -> M T B) (l : list A) :
  (forall a, allocates_only (f a)) -> allocates_only (mapM_st f l).
Proof.
  intros Hf. induction l as [|a l IH]; simpl.
  - apply allocates_only_ret.
  - apply allocates_only_bind; [apply Hf |]. intros b.
    apply allocates_only_bind; [apply IH |]. intros bs. apply allocates_only_ret.
Qed.
End AllocLemmas.

Create HintDb safe.

#[local] Hint Resolve safe_lift safe_get_self safe_read2 safe_read3 safe_read4
  safe_read_image safe_alloc safe_alloc2 safe_store2 safe_slice_rows
  safe_split3 safe_iter3 : safe.

(** One step of a sequence: the first computation by a lemma of the
    database, then the rest with what it returned. *)
Ltac safe_step :=
  lazymatch goal with
  | |- safe _ (bindM _ _) _ =>
      eapply safe_bind; [solve [eauto with safe] | cbv beta; intros ? ?]
  | |- safe _ (ret _) _ => apply safe_ret
  end.

Section MethodFrames.
Context {T : Type} `{Scalar T}.
Variable xywh2xyxy : list T -> list T.
Variable argsort : list T -> list nat.
Variable convert_torch2numpy_batch : Tensor4 T -> list Image.
Variable LetterBox : ImgSz -> bool -> bool -> Image -> Image.

(** The in-place product writes the copy and the tensor it was called on,
    nothing else. *)
Lemma safe_imul_at (n : nat) (pred : View) (cols : list nat) (k : T) :
  n <= v_cell pred -> safe (T := T) n (imul_at pred cols k) (fun _ => True).
Proof.
  intros Hp. unfold imul_at.
  do 6 safe_step. safe_step. safe_step.
  auto with safe.
Qed.

Lemma safe_postprocess_image_st (n nc : nat) (bbox score : View)
    (orig_img : nat) (img_path : String.string) :
  safe (T := T) n
    (postprocess_image_st xywh2xyxy argsort nc bbox score orig_img img_path)
    (fun _ => True).
Proof.
  unfold postprocess_image_st.
  do 4 safe_step.
  eapply safe_bind; [apply safe_lift |]. intros [ms cls] _. cbv zeta.
  repeat safe_step.
  match goal with |- context [shape2 ?x] => destruct (shape2 x) as [oh ow] end.
  eapply safe_bind; [now apply safe_imul_at |]. intros _ _.
  eapply safe_bind; [now apply safe_imul_at |]. intros _ _.
  now apply safe_ret.
Qed.

Lemma safe_postprocess_st (n : nat) (preds : PredsRef) (img : nat) (orig_imgs : OrigRef) :
  safe (T := T) n
    (postprocess_st xywh2xyxy argsort convert_torch2numpy_batch preds img orig_imgs)
    (fun _ => True).
Proof.
  unfold postprocess_st.
  do 2 safe_step.
  eapply safe_bind; [apply safe_split3 |]. intros [bboxes scores] _. cbv zeta.
  eapply safe_bind with (Q := fun _ => True).
  { destruct orig_imgs as [l | c].
    - now apply safe_ret.
    - safe_step. eapply safe_conseq; [apply safe_mapM_st; intros; apply safe_alloc |].
      auto. }
  intros imgs _. do 2 safe_step.
  eapply safe_conseq.
  - apply safe_mapM_st with (Q := fun _ => True).
    intros [[[bbox score] im] pth]. apply safe_postprocess_image_st.
  - auto.
Qed.

Lemma allocates_only_pre_transform_st (im : list nat) :
  allocates_only (T := T) (pre_transform_st LetterBox im).
Proof.
  unfold pre_transform_st.
  apply allocates_only_bind; [apply allocates_only_reader; reflexivity |].
  intros self. cbv zeta. apply allocates_only_mapM_st. intros r.
  apply allocates_only_bind; [| intros x; apply allocates_only_alloc].
  apply allocates_only_reader. intros s. unfold read_image.
  destruct (nth_error (st_heap s) r) as [[d|d|x]|]; reflexivity.
Qed.
End MethodFrames.

Section StoreClaims.
Context {T : Type} `{Scalar T}.
Variable xywh2xyxy : list T -> list T.
Variable argsort : list T -> list nat.
Variable convert_torch2numpy_batch : Tensor4 T -> list Image.
Variable LetterBox : ImgSz -> bool -> bool -> Image -> Image.

(** C9: whether it returns or raises, [postprocess] leaves every cell of
    the memory it was called in as it was, the predictor object too, and
    writes in place only cells it has created; [pre_transform] writes no
    cell in place at all. *)
Theorem methods_keep_their_inputs (s : State T) :
  (forall preds img orig_imgs,
     let s' := snd (postprocess_st xywh2xyxy argsort convert_torch2numpy_batch
                      preds img orig_imgs s) in
     (forall l c, nth_error (st_heap s) l = Some c ->
                  nth_error (st_heap s') l = Some c) /\
     st_self s' = st_self s /\
     exists w, st_log s' = w ++ st_log s /\
               Forall (fun l => length (st_heap s) <= l) w) /\
  (forall im,
     let s' := snd (pre_transform_st LetterBox im s) in
     (forall l c, nth_error (st_heap s) l = Some c ->
                  nth_error (st_heap s') l = Some c) /\
     st_self s' = st_self s /\
     st_log s' = st_log s).
Proof.
  split.
  - intros preds img orig_imgs s'.
    destruct (@safe_postprocess_st T _ xywh2xyxy argsort convert_torch2numpy_batch
                (length (st_heap s)) preds img orig_imgs s (le_n _))
      as [(_ & Hn & Hs & Hw) _].
    fold s' in Hn, Hs, Hw. split; [| split; assumption].
    intros l c Hl. rewrite Hn; [exact Hl |].
    apply nth_error_Some. congruence.
  - intros im s'.
    destruct (@allocates_only_pre_transform_st T LetterBox im s) as ((ext & E) & Hs & Hl).
    fold s' in E, Hs, Hl. split; [| split; assumption].
    intros l c Hc. rewrite E. rewrite nth_error_app1; [exact Hc |].
    apply nth_error_Some. congruence.
Qed.
End StoreClaims.

(** On the demo batch the store run returns, its results read back are the
    results of [postprocess], the three cells of the inputs are as before,
    and the cells written in place are new ones. *)
Example run_st_demo :
  (exists rs, fst Demo.run_st = Some rs /\
     map (read_results (snd Demo.run_st)) rs = map Some Demo.results_all) /\
  firstn 3 (st_heap (snd Demo.run_st)) = st_heap Demo.state0 /\
  st_log (snd Demo.run_st) = [14; 16; 14; 15; 7; 9; 7; 8].
Proof.
  split; [| split]; [| vm_compute; reflexivity ..].
  eexists. split; vm_compute; reflexivity.
Qed.

(* ------------------------------------------------------------------ *)
(** ** The store: the values computed are those of [postprocess] *)

Section SpliceLemmas.
Context {T : Type}.

Lemma map_skipn_0 (m : list (list T)) : map (skipn 0) m = m.
Proof.
  induction m as [|r m IH]; [reflexivity |].
  cbn [map]. rewrite IH. reflexivity.
Qed.


End SpliceLemmas.

Section StoreEquations.
Context {T : Type} `{Scalar T}.

Lemma bindM_inv {A B : Type} (m : M T A) (k : A -> M T B) (s s' : State T) (b : B) :
  bindM m k s = (Some b, s') ->
  exists a s1, m s = (Some a, s1) /\ k a s1 = (Some b, s').
Proof.
  unfold bindM. destruct (m s) as [[a|] s1]; [eauto | discriminate].
Qed.

Lemma read2_snd (v : View) (s : State T) : snd (read2 v s) = s.
Proof.
  unfold read2.
  destruct (nth_error (st_heap s) (v_cell v)) as [[d| |]|]; try reflexivity.
  destruct (nth_error d (v_block v)); reflexivity.
Qed.

Lemma read2_inv (v : View) (s s1 : State T) (m : list (list T)) :
  read2 v s = (Some m, s1) -> s1 = s /\ fst (read2 v s) = Some m.
Proof.
  intros E. pose proof (read2_snd v s) as Hs. rewrite E in *. simpl in Hs. auto.
Qed.




Lemma read_image_inv (c : nat) (s s1 : State T) (im : Image) :
  read_image c s = (Some im, s1) ->
  s1 = s /\ nth_error (st_heap s) c = Some (CImage im).
Proof.
  unfold read_image.
  destruct (nth_error (st_heap s) c) as [[d| |x]|]; try discriminate.
  intros E; injection E as <- <-. auto.
Qed.

(** A new matrix reads back as it was given, and the cells before it are
    as they were. *)
Lemma alloc2_inv (m : list (list T)) (s s1 : State T) (v : View) :
  alloc2 m s = (Some v, s1) ->
  v_cell v = length (st_heap s) /\
  v_nrows v = None /\ v_col v = 0 /\ v_ncol v = None /\
  length (st_heap s1) = S (length (st_heap s)) /\
  (forall l, l < length (st_heap s) ->
             nth_error (st_heap s1) l = nth_error (st_heap s) l) /\
  st_self s1 = st_self s /\
  fst (read2 v s1) = Some m.
Proof.
  unfold alloc2, bindM, alloc, ret. intros E. injection E as <- <-.
  cbn [st_heap st_self v_cell v_block v_nrows v_col v_ncol].
  repeat split.
  - rewrite length_app. simpl. lia.
  - intros l Hl. now apply nth_error_app1.
  - unfold read2. cbn [st_heap v_cell v_block v_nrows v_col v_ncol].
    rewrite nth_error_app2 by lia. rewrite Nat.sub_diag. cbn.
    now rewrite map_skipn_0.
Qed.



End StoreEquations.

Section InPlaceProduct.
Context {T : Type} `{Scalar T}.





End InPlaceProduct.

Section Refinement.
Context {T : Type} `{Scalar T}.
Variable xywh2xyxy : list T -> list T.
Variable argsort : list T -> list nat.
Variable convert_torch2numpy_batch : Tensor4 T -> list Image.




End Refinement.

Section BatchRefinement.
Context {T : Type} `{Scalar T}.
Variable xywh2xyxy : list T -> list T.
Variable argsort : list T -> list nat.
Variable convert_torch2numpy_batch : Tensor4 T -> list Image.



End BatchRefinement.

(* ------------------------------------------------------------------ *)
(** ** Further properties of [postprocess] *)

Lemma Forall2_In_combine {A B : Type} (P : A -> B -> Prop) (l : list A) (l' : list B)
    (a : A) :
  Forall2 P l l' -> In a l -> exists b, In (a, b) (combine l l') /\ P a b.
Proof.
  induction 1 as [|x y l l' HP HF IH]; simpl; intros HI; [contradiction |].
  destruct HI as [-> | HI].
  - exists y. auto.
  - destruct (IH HI) as (b & Hb & Pb). exists b. auto.
Qed.

Lemma Forall2_In_left {A B : Type} (R : A -> B -> Prop) (l : list A) (l' : list B)
    (a : A) :
  Forall2 R l l' -> In a l -> exists b, In b l' /\ R a b.
Proof.
  induction 1 as [|a' b l l' HR HF IH]; simpl; intros HI; [contradiction |].
  destruct HI as [-> | HI]; [eauto |].
  destruct (IH HI) as (b' & ? & ?); eauto.
Qed.

Lemma py_take_all {A : Type} (k : Z) (l : list A) :
  (Z.of_nat (length l) <= k)%Z -> py_take k l = l.
Proof.
  intros Hk. unfold py_take. destruct (Z.ltb_spec k 0); [lia |].
  apply firstn_all2. lia.
Qed.

Lemma py_take_length {A : Type} (k : Z) (l : list A) :
  length (py_take k l) <= length l.
Proof.
  unfold py_take. destruct (k <? 0)%Z; rewrite length_firstn; lia.
Qed.

(** The position [max_from] returns is one it has seen. *)
Lemma max_from_index {T : Type} `{Scalar T} (l : list T) (best : T) (bi i : nat)
    (m : T) (k : nat) :
  bi < i -> max_from best bi i l = (m, k) -> k < i + length l.
Proof.
  revert best bi i; induction l as [|x l IH]; intros best bi i Hbi E; simpl in E.
  - injection E as <- <-. lia.
  - destruct (ltb best x); apply IH in E; simpl; lia.
Qed.

Lemma row_max_index {T : Type} `{Scalar T} (r : list T) (m : T) (c : Z) :
  row_max r = Some (m, c) -> (0 <= c < Z.of_nat (length r))%Z.
Proof.
  destruct r as [|x l]; [discriminate |]. unfold row_max.
  destruct (max_from x 0 1 l) as [m' k] eqn:E. intros E'; injection E' as <- <-.
  apply max_from_index in E; [| lia]. simpl. lia.
Qed.

Lemma mapM_ext_in {A B : Type} (f g : A -> option B) (l : list A) :
  (forall a, In a l -> f a = g a) -> mapM f l = mapM g l.
Proof.
  induction l as [|a l IH]; intros Hfg; simpl; [reflexivity |].
  rewrite Hfg by now left. rewrite IH; [reflexivity |].
  intros b Hb. apply Hfg. now right.
Qed.

Lemma mapM_app {A B : Type} (f : A -> option B) (l1 l2 : list A) :
  mapM f (l1 ++ l2) =
  bind (mapM f l1) (fun r1 => bind (mapM f l2) (fun r2 => Some (r1 ++ r2))).
Proof.
  induction l1 as [|a l1 IH]; simpl.
  - destruct (mapM f l2); reflexivity.
  - destruct (f a) as [b|]; simpl; [| reflexivity].
    rewrite IH. destruct (mapM f l1) as [r1|]; simpl; [| reflexivity].
    destruct (mapM f l2); reflexivity.
Qed.

Lemma and_mask_true {A : Type} (f g : A -> bool) (l : list A) :
  (forall a, In a l -> f a = true) -> and_mask (map f l) (map g l) = map g l.
Proof.
  induction l as [|a l IH]; intros Hf; simpl; [reflexivity |].
  rewrite Hf by now left. rewrite IH; [reflexivity |].
  intros b Hb. apply Hf. now right.
Qed.

Lemma concat_singletons {A B : Type} (f : A -> B) (l : list A) :
  concat (map (fun a => [f a]) l) = map f l.
Proof.
  induction l as [|a l IH]; simpl; [reflexivity | now rewrite IH].
Qed.

Lemma zip4_app {A B C D : Type} (la la' : list A) (lb lb' : list B)
    (lc lc' : list C) (ld ld' : list D) :
  length lb = length la -> length lc = length la -> length ld = length la ->
  zip4 (la ++ la') (lb ++ lb') (lc ++ lc') (ld ++ ld')
  = zip4 la lb lc ld ++ zip4 la' lb' lc' ld'.
Proof.
  revert lb lc ld; induction la as [|a la IH]; intros [|b lb] [|c lc] [|d ld] Hb Hc Hd;
    simpl in *; try discriminate; [reflexivity |].
  rewrite IH by lia. reflexivity.
Qed.

Section Extras.
Context {T : Type} `{Scalar T}.
Variable xywh2xyxy : list T -> list T.
Variable argsort : list T -> list nat.
Variable convert_torch2numpy_batch : Tensor4 T -> list Image.

(** The image, path and names the loop body stores are those it was given,
    whatever the predictions. *)
Lemma postprocess_image_meta (self : Predictor T) (nc : nat)
    (bbox score : list (list T)) (im : Image) (pth : String.string) (res : Results T) :
  postprocess_image xywh2xyxy argsort self nc bbox score im pth = Some res ->
  orig_img res = im /\ path res = pth /\ res_names res = names self.
Proof.
  unfold postprocess_image. intros E.
  apply bind_Some in E as ([ms cls] & _ & E). cbv zeta in E.
  apply bind_Some in E as (key & _ & E).
  apply bind_Some in E as (S & _ & E).
  destruct (shape2 im) as [oh ow].
  apply bind_Some in E as (p1 & _ & E).
  apply bind_Some in E as (p2 & _ & E).
  injection E as <-. auto.
Qed.

(** X2: [zip] stops at the shortest of the predictions, the images and the
    paths: a returned list has that many results, and the [i]-th result
    holds the [i]-th image and the [i]-th path. *)
Theorem postprocess_zip_shortest (self : Predictor T) (preds : Preds T)
    (img : Tensor4 T) (orig_imgs : OrigImgs T) (results : list (Results T)) :
  postprocess xywh2xyxy argsort convert_torch2numpy_batch self preds img orig_imgs
    = Some results ->
  exists p0,
    item0 (as_list preds) = Some p0 /\
    length results =
      Nat.min (length (t_data p0))
        (Nat.min (length (images_of convert_torch2numpy_batch orig_imgs))
                 (length (paths (batch self)))) /\
    forall i res, nth_error results i = Some res ->
      nth_error (images_of convert_torch2numpy_batch orig_imgs) i = Some (orig_img res) /\
      nth_error (paths (batch self)) i = Some (path res) /\
      res_names res = names self.
Proof.
  intros E. apply postprocess_inv in E as (p0 & Ep0 & _ & Hlen & Hall).
  exists p0. split; [exact Ep0 |]. split; [exact Hlen |].
  intros i res Hi.
  destruct (Hall i res Hi) as (rows & im & pth & _ & Him & Hp & Eimg).
  apply postprocess_image_meta in Eimg as (-> & -> & ->). auto.
Qed.

Section WithSpecs.
Hypothesis xywh2xyxy_shape : shape_preserving xywh2xyxy.
Hypothesis argsort_ok : argsort_spec argsort.

(** X3: a returned [boxes] has rows of exactly six entries, and no more
    rows than the image has predictions. *)
Theorem postprocess_boxes_shape (self : Predictor T) (preds : Preds T)
    (img : Tensor4 T) (orig_imgs : OrigImgs T) (results : list (Results T))
    (i : nat) (res : Results T) :
  wf_preds preds = true ->
  postprocess xywh2xyxy argsort convert_torch2numpy_batch self preds img orig_imgs
    = Some results ->
  nth_error results i = Some res ->
  Forall (fun out => length out = 6) (boxes res) /\
  exists rows, rows_of preds i = Some rows /\ length (boxes res) <= length rows.
Proof.
  intros Hwf E Hi. split.
  - apply Forall_forall. intros out Hout.
    destruct (retained_columns xywh2xyxy_shape argsort_ok Hwf E Hi Hout)
      as (rows & r & m & c & x1 & y1 & x2 & y2 & _ & _ & _ & _ & _ & _ & ->).
    reflexivity.
  - apply postprocess_inv in E as (p0 & Ep0 & _ & _ & Hall).
    destruct (Hall i res Hi) as (rows & im & pth & Hrows & _ & _ & Eimg).
    apply postprocess_image_inv in Eimg as (mi & S & Emi & HP & _ & HF & _);
      [| exact argsort_ok].
    exists rows. split; [unfold rows_of; rewrite Ep0; exact Hrows |].
    rewrite <- (Forall2_length HF).
    pose proof (py_take_length (max_det (args self)) S) as Hk.
    rewrite (Permutation_length HP) in Hk.
    unfold filtered in Hk. rewrite length_map in Hk.
    pose proof (filter_length_le (fun p : list T * (T * Z) => keep self (snd p))
                  (combine rows mi)) as Hf.
    rewrite length_combine in Hf. lia.
Qed.


(** A prediction row that passes the filter is returned when the slice
    cuts nothing. *)
Lemma filtered_row_returned (self : Predictor T) (preds : Preds T)
    (img : Tensor4 T) (orig_imgs : OrigImgs T) (results : list (Results T))
    (i : nat) (res : Results T) (rows : list (list T)) (r : list T) (m : T) (c : Z) :
  postprocess xywh2xyxy argsort convert_torch2numpy_batch self preds img orig_imgs
    = Some results ->
  nth_error results i = Some res ->
  rows_of preds i = Some rows ->
  (Z.of_nat (length rows) <= max_det (args self))%Z ->
  In r rows -> row_max (skipn 4 r) = Some (m, c) -> keep self (m, c) = true ->
  exists out,
    In out (boxes res) /\
    scale_row (orig_img res) (build xywh2xyxy r (m, c)) = Some out.
Proof.
  intros E Hi Hrows Hk Hr Hmax Hkeep.
  apply postprocess_inv in E as (p0 & Ep0 & _ & _ & Hall).
  destruct (Hall i res Hi) as (rows' & im & pth & Hrows' & _ & _ & Eimg).
  unfold rows_of in Hrows. rewrite Ep0 in Hrows. cbn [bind] in Hrows.
  rewrite Hrows in Hrows'. injection Hrows' as <-.
  apply postprocess_image_inv in Eimg as (mi & S & Emi & HP & _ & HF & Ho & _);
    [| exact argsort_ok].
  subst im.
  assert (HlenS : length S <= length rows).
  { rewrite (Permutation_length HP). unfold filtered. rewrite length_map.
    pose proof (filter_length_le (fun p : list T * (T * Z) => keep self (snd p))
                  (combine rows mi)) as Hf.
    rewrite length_combine in Hf. lia. }
  rewrite py_take_all in HF by lia.
  apply mapM_Forall2 in Emi. apply Forall2_map_l in Emi.
  destruct (Forall2_In_combine Emi Hr) as (mc & Hin & Hmc). cbv beta in Hmc.
  rewrite Hmax in Hmc. injection Hmc as <-.
  assert (HinS : In (build xywh2xyxy r (m, c)) S).
  { apply (Permutation_in _ (Permutation_sym HP)). unfold filtered.
    apply in_map_iff. exists (r, (m, c)). split; [reflexivity |].
    apply filter_In. auto. }
  destruct (Forall2_In_left HF HinS) as (out & Hout & Hs). eauto.
Qed.


(** X10: the class in column 5 of a returned row is the cast of a valid
    class index, at least 0 and below [nd - 4]. *)
Theorem postprocess_class_in_range (self : Predictor T) (preds : Preds T)
    (p0 : Tensor3 T) (img : Tensor4 T) (orig_imgs : OrigImgs T)
    (results : list (Results T)) (i : nat) (res : Results T) (out : list T) :
  item0 (as_list preds) = Some p0 ->
  wf_tensor p0 = true ->
  postprocess xywh2xyxy argsort convert_torch2numpy_batch self preds img orig_imgs
    = Some results ->
  nth_error results i = Some res -> In out (boxes res) ->
  exists c, nth_error out 5 = Some (of_Z c) /\
            (0 <= c < Z.of_nat (t_nd p0 - 4))%Z.
Proof.
  intros Ep0 Hwf E Hi Hout.
  assert (Hwf' : wf_preds preds = true) by (unfold wf_preds; now rewrite Ep0).
  destruct (retained_columns xywh2xyxy_shape argsort_ok Hwf' E Hi Hout)
    as (rows & r & m & c & x1 & y1 & x2 & y2 & Hrows & Hr & Hmax & _ & _ & _ & ->).
  exists c. split; [reflexivity |].
  apply row_max_index in Hmax. rewrite length_skipn in Hmax.
  unfold rows_of in Hrows. rewrite Ep0 in Hrows. cbn [bind] in Hrows.
  now rewrite (wf_tensor_row Hwf Hrows Hr) in Hmax.
Qed.
End WithSpecs.

(** On well-formed predictions with at least one class the loop body
    returns for every tuple, so [postprocess] returns. *)
Lemma postprocess_total (self : Predictor T) (preds : Preds T) (p0 : Tensor3 T)
    (img : Tensor4 T) (orig_imgs : OrigImgs T) :
  shape_preserving xywh2xyxy -> argsort_spec argsort ->
  item0 (as_list preds) = Some p0 -> wf_tensor p0 = true -> 5 <= t_nd p0 ->
  exists results,
    postprocess xywh2xyxy argsort convert_torch2numpy_batch self preds img orig_imgs
      = Some results.
Proof.
  intros Hs Hsort Ep0 Hwf Hnd.
  unfold postprocess. rewrite Ep0. cbn [bind]. unfold split_last.
  destruct (Nat.ltb_spec (t_nd p0) 4); [lia |]. cbn [bind]. cbv zeta.
  apply mapM_total. intros [[[bbox score] im] pth] Hin.
  apply In_nth_error in Hin as (j & Hj).
  apply nth_error_zip4 in Hj as (Hb & Hsc & _ & _).
  rewrite nth_error_map in Hb. rewrite nth_error_map in Hsc.
  destruct (nth_error (t_data p0) j) as [rows|] eqn:Hrows; [| discriminate].
  cbn [option_map] in Hb, Hsc. injection Hb as <-. injection Hsc as <-.
  apply postprocess_image_total; auto.
  apply Forall_forall. intros r Hr. exact (wf_tensor_row Hwf Hrows Hr).
Qed.

(** X1: on rectangular predictions [postprocess] raises in exactly three
    cases: [preds[0]] is missing or no tensor; the last dimension is below
    4 (a negative split size); the last dimension is 4, so that there is no
    class to take the maximum over, and the loop runs at least once. *)
Theorem postprocess_raises_iff (self : Predictor T) (preds : Preds T)
    (img : Tensor4 T) (orig_imgs : OrigImgs T) :
  shape_preserving xywh2xyxy -> argsort_spec argsort ->
  (forall p0, item0 (as_list preds) = Some p0 -> wf_tensor p0 = true) ->
  postprocess xywh2xyxy argsort convert_torch2numpy_batch self preds img orig_imgs
    = None <->
  (item0 (as_list preds) = None \/
   exists p0, item0 (as_list preds) = Some p0 /\
     (t_nd p0 < 4 \/
      (t_nd p0 = 4 /\ t_data p0 <> [] /\
       images_of convert_torch2numpy_batch orig_imgs <> [] /\
       paths (batch self) <> []))).
Proof.
  intros Hs Hsort Hwf. split.
  - intros E. destruct (item0 (as_list preds)) as [p0|] eqn:Ep0; [right | now left].
    exists p0. split; [reflexivity |].
    destruct (Nat.lt_ge_cases (t_nd p0) 4) as [Hlt | Hge]; [now left | right].
    destruct (Nat.eq_dec (t_nd p0) 4) as [E4 | Hne].
    + split; [exact E4 |].
      unfold postprocess in E. rewrite Ep0 in E. cbn [bind] in E.
      unfold split_last in E. rewrite E4 in E. cbn [Nat.ltb Nat.leb bind] in E.
      fold (images_of convert_torch2numpy_batch orig_imgs) in E.
      destruct (t_data p0) as [|rows d]; [discriminate E |].
      destruct (images_of convert_torch2numpy_batch orig_imgs) as [|im ims];
        [discriminate E |].
      destruct (paths (batch self)) as [|pth ps]; [discriminate E |].
      repeat split; discriminate.
    + destruct (@postprocess_total self preds p0 img orig_imgs Hs Hsort Ep0
                  (Hwf _ eq_refl))
        as (results & Er); [lia | congruence].
  - intros [E | (p0 & Ep0 & [Hlt | (E4 & Hd & Hi & Hp)])];
      unfold postprocess; rewrite ?E, ?Ep0; cbn [bind].
    + reflexivity.
    + unfold split_last. destruct (Nat.ltb_spec (t_nd p0) 4); [reflexivity | lia].
    + unfold split_last. rewrite E4. cbn [Nat.ltb Nat.leb bind].
      fold (images_of convert_torch2numpy_batch orig_imgs).
      destruct (t_data p0) as [|rows d]; [congruence |].
      destruct (images_of convert_torch2numpy_batch orig_imgs) as [|im ims];
        [congruence |].
      destruct (paths (batch self)) as [|pth ps]; [congruence |].
      reflexivity.
Qed.

(** A class list that holds every class index masks nothing. *)
Lemma postprocess_image_all_classes (self : Predictor T) (cs : list Z) (nc : nat)
    (bbox score : list (list T)) (im : Image) (pth : String.string) :
  Forall (fun r => length r = nc) score ->
  (forall c, (0 <= c < Z.of_nat nc)%Z -> In c cs) ->
  postprocess_image xywh2xyxy argsort (with_classes self (Some cs)) nc bbox score im pth
  = postprocess_image xywh2xyxy argsort (with_classes self None) nc bbox score im pth.
Proof.
  intros Hlen Hcs. unfold postprocess_image.
  cbn [args conf classes max_det names with_classes].
  destruct (tensor_max nc score) as [[ms cls]|] eqn:Emax; cbn [bind]; [| reflexivity].
  cbv zeta.
  assert (Hmask : and_mask (cls_in cs cls)
                    (map (fun m => ltb (conf (args self)) m) (squeeze_last ms))
                  = map (fun m => ltb (conf (args self)) m) (squeeze_last ms)).
  { unfold tensor_max in Emax. destruct (nc =? 0); [discriminate |].
    apply bind_Some in Emax as (mi & Emi & Emax). injection Emax as <- <-.
    unfold squeeze_last, cls_in. rewrite concat_singletons, !map_map.
    apply and_mask_true. intros [m c] Hin. cbn [snd existsb]. rewrite orb_false_r.
    apply mapM_Forall2 in Emi.
    destruct (Forall2_In_r Emi Hin) as (r & Hr & Hmax).
    apply row_max_index in Hmax.
    rewrite Forall_forall in Hlen. rewrite (Hlen r Hr) in Hmax.
    apply existsb_exists. exists c. split; [now apply Hcs | apply Z.eqb_refl]. }
  rewrite Hmask. reflexivity.
Qed.

(** X7: a class list that holds every class index, 0 to [nd - 5], gives
    the results that [classes = None] gives. *)
Theorem postprocess_all_classes_is_none (self : Predictor T) (preds : Preds T)
    (img : Tensor4 T) (orig_imgs : OrigImgs T) (cs : list Z) :
  wf_preds preds = true ->
  (forall p0 c, item0 (as_list preds) = Some p0 ->
                (0 <= c < Z.of_nat (t_nd p0 - 4))%Z -> In c cs) ->
  postprocess xywh2xyxy argsort convert_torch2numpy_batch
    (with_classes self (Some cs)) preds img orig_imgs
  = postprocess xywh2xyxy argsort convert_torch2numpy_batch
      (with_classes self None) preds img orig_imgs.
Proof.
  intros Hwf Hcs. unfold postprocess, wf_preds in *.
  destruct (item0 (as_list preds)) as [p0|]; [| discriminate]. cbn [bind].
  destruct (split_last p0) as [[bboxes scores]|] eqn:Esplit; cbn [bind]; [| reflexivity].
  apply split_last_Some in Esplit as (Hnd & -> & ->).
  cbn [batch paths with_classes]. apply mapM_ext_in.
  intros [[[bbox score] im] pth] Hin.
  apply In_nth_error in Hin as (j & Hj).
  apply nth_error_zip4 in Hj as (_ & Hsc & _ & _).
  rewrite nth_error_map in Hsc.
  destruct (nth_error (t_data p0) j) as [rows|] eqn:Hrows; [| discriminate].
  cbn [option_map] in Hsc. injection Hsc as <-.
  apply postprocess_image_all_classes; [| intros c Hc; now apply (Hcs p0 c eq_refl)].
  apply Forall_forall. intros s Hs. apply in_map_iff in Hs as (r & Es & Hr).
  subst s. change (length (skipn 4 r) = t_nd p0 - 4). rewrite length_skipn.
  rewrite (wf_tensor_row Hwf Hrows Hr). reflexivity.
Qed.

(** X9: the images of a batch are processed independently: the results
    for two batches put one after the other are the results of the first
    followed by those of the second (and the call raises when one of the
    two does). *)
Theorem postprocess_batch_concat (self : Predictor T) (nd : nat)
    (d1 d2 : list (list (list T))) (i1 i2 : list Image)
    (p1 p2 : list String.string) (img : Tensor4 T) :
  length d1 = length i1 -> length p1 = length i1 ->
  postprocess xywh2xyxy argsort convert_torch2numpy_batch (with_paths self (p1 ++ p2))
    (PTensor {| t_nd := nd; t_data := d1 ++ d2 |}) img (OList (i1 ++ i2))
  = bind (postprocess xywh2xyxy argsort convert_torch2numpy_batch (with_paths self p1)
            (PTensor {| t_nd := nd; t_data := d1 |}) img (OList i1))
      (fun r1 =>
         bind (postprocess xywh2xyxy argsort convert_torch2numpy_batch
                 (with_paths self p2)
                 (PTensor {| t_nd := nd; t_data := d2 |}) img (OList i2))
           (fun r2 => Some (r1 ++ r2))).
Proof.
  intros Hd Hp. unfold postprocess. cbn [as_list item0 bind].
  unfold split_last. cbn [t_nd t_data].
  destruct (nd <? 4); [reflexivity |]. cbn [bind batch paths with_paths].
  rewrite !map_app, zip4_app by (rewrite ?length_map; congruence).
  rewrite mapM_app. reflexivity.
Qed.

(** The loop body reads the image for its height and width only. *)
Lemma postprocess_image_shape_only (self : Predictor T) (nc : nat)
    (bbox score : list (list T)) (im1 im2 : Image) (pth : String.string)
    (res1 : Results T) :
  shape2 im1 = shape2 im2 ->
  postprocess_image xywh2xyxy argsort self nc bbox score im1 pth = Some res1 ->
  exists res2,
    postprocess_image xywh2xyxy argsort self nc bbox score im2 pth = Some res2 /\
    boxes res2 = boxes res1 /\ orig_img res2 = im2.
Proof.
  unfold postprocess_image. intros Hshape E.
  destruct (tensor_max nc score) as [[ms cls]|]; [| discriminate]. cbn [bind] in *.
  cbv zeta in *.
  destruct (column 4 _) as [key|]; [| discriminate]. cbn [bind] in *.
  destruct (index_select _ _) as [S|]; [| discriminate]. cbn [bind] in *.
  rewrite <- Hshape. destruct (shape2 im1) as [oh ow].
  destruct (imul_cols [0; 2] _ _) as [q1|]; [| discriminate]. cbn [bind] in *.
  destruct (imul_cols [1; 3] _ _) as [q2|]; [| discriminate]. cbn [bind] in *.
  injection E as <-. eexists. split; [reflexivity |]. auto.
Qed.

(** X14: the boxes depend on the original images through their heights
    and widths only: with other images of the same shapes the call returns
    the same boxes, image by image. *)
Theorem postprocess_boxes_depend_on_shape (self : Predictor T) (preds : Preds T)
    (img : Tensor4 T) (imgs1 imgs2 : list Image) (results1 : list (Results T)) :
  Forall2 (fun a b => shape2 a = shape2 b) imgs1 imgs2 ->
  postprocess xywh2xyxy argsort convert_torch2numpy_batch self preds img (OList imgs1)
    = Some results1 ->
  exists results2,
    postprocess xywh2xyxy argsort convert_torch2numpy_batch self preds img (OList imgs2)
      = Some results2 /\
    map (@boxes T) results2 = map (@boxes T) results1.
Proof.
  intros Hshape E. unfold postprocess in *.
  destruct (item0 (as_list preds)) as [p0|]; [| discriminate]. cbn [bind] in *.
  destruct (split_last p0) as [[bboxes scores]|]; [| discriminate]. cbn [bind] in *.
  revert E. generalize (paths (batch self)) as ps. revert bboxes scores results1.
  induction Hshape as [|im1 im2 imgs1 imgs2 Him Hshape IH];
    intros bboxes scores results1 ps E.
  - destruct bboxes, scores; cbn in E; injection E as <-; exists []; auto.
  - destruct bboxes as [|bbox bboxes]; [cbn in E; injection E as <-; exists []; auto |].
    destruct scores as [|score scores]; [cbn in E; injection E as <-; exists []; auto |].
    destruct ps as [|p ps]; [cbn in E; injection E as <-; exists []; auto |].
    cbn [zip4 mapM] in E |- *.
    apply bind_Some in E as (res1 & E1 & E). apply bind_Some in E as (rs1 & Ers & E).
    injection E as <-.
    destruct (postprocess_image_shape_only Him E1) as (res2 & E2 & Hb & _).
    destruct (IH _ _ _ _ Ers) as (rs2 & Ers2 & Hbs).
    exists (res2 :: rs2). rewrite E2. cbn [bind]. rewrite Ers2. cbn [bind map].
    split; [reflexivity | now rewrite Hb, Hbs].
Qed.

(** X8: with an empty list of classes every image gets a [Results] with
    no box. *)
Theorem postprocess_no_class_no_box (self : Predictor T) (preds : Preds T)
    (img : Tensor4 T) (orig_imgs : OrigImgs T) (results : list (Results T))
    (i : nat) (res : Results T) :
  argsort_spec argsort ->
  classes (args self) = Some [] ->
  postprocess xywh2xyxy argsort convert_torch2numpy_batch self preds img orig_imgs
    = Some results ->
  nth_error results i = Some res ->
  boxes res = [].
Proof.
  intros Hsort Hcs E Hi.
  destruct (boxes res) as [|out bs] eqn:Eb; [reflexivity |].
  assert (Hout : In out (boxes res)) by (rewrite Eb; now left).
  destruct (retained_row Hsort E Hi Hout)
    as (rows & r & mc & im & _ & _ & _ & Hkeep & _).
  unfold keep in Hkeep. rewrite Hcs in Hkeep. discriminate.
Qed.
End Extras.

Section ExtrasOrder.
Context {T : Type} `{ScalarOrder T}.
Variable xywh2xyxy : list T -> list T.
Variable argsort : list T -> list nat.
Variable convert_torch2numpy_batch : Tensor4 T -> list Image.

(** X6: when [max_det] cuts nothing, lowering the confidence threshold
    only adds detections: every row returned with threshold [c2] is
    returned with a threshold [c1] that is not above [c2]. *)
Theorem postprocess_conf_monotone (self : Predictor T) (c1 c2 : T)
    (preds : Preds T) (img : Tensor4 T) (orig_imgs : OrigImgs T)
    (results1 results2 : list (Results T)) (i : nat) (res2 : Results T)
    (out : list T) (rows : list (list T)) :
  argsort_spec argsort ->
  ltb c2 c1 = false ->
  postprocess xywh2xyxy argsort convert_torch2numpy_batch (with_conf self c1)
    preds img orig_imgs = Some results1 ->
  postprocess xywh2xyxy argsort convert_torch2numpy_batch (with_conf self c2)
    preds img orig_imgs = Some results2 ->
  rows_of preds i = Some rows ->
  (Z.of_nat (length rows) <= max_det (args self))%Z ->
  nth_error results2 i = Some res2 -> In out (boxes res2) ->
  exists res1, nth_error results1 i = Some res1 /\ In out (boxes res1).
Proof.
  intros Hsort Hc E1 E2 Hrows Hk Hi2 Hout.
  pose proof (postprocess_inv E1) as (p0 & Ep0 & _ & Hlen1 & Hall1).
  pose proof (postprocess_inv E2) as (p0' & Ep0' & _ & Hlen2 & _).
  rewrite Ep0 in Ep0'. injection Ep0' as <-.
  cbn [batch with_conf] in Hlen1, Hlen2.
  assert (Hex : exists res1, nth_error results1 i = Some res1).
  { destruct (nth_error results1 i) eqn:En; [eauto |].
    apply nth_error_None in En.
    assert (i < length results2) by (apply nth_error_Some; congruence). lia. }
  destruct Hex as (res1 & Hi1). exists res1. split; [exact Hi1 |].
  destruct (retained_row Hsort E2 Hi2 Hout)
    as (rows' & r & [m c] & im & Hrows' & Hr & Hmax & Hkeep & Him & Ho2 & Hscale).
  rewrite Hrows in Hrows'. injection Hrows' as <-.
  assert (Hkeep1 : keep (with_conf self c1) (m, c) = true).
  { unfold keep in *. cbn [args conf classes with_conf fst snd] in *.
    assert (Hlt : forall b, b && ltb c2 m = true -> b && ltb c1 m = true).
    { intros b Hb. apply andb_true_iff in Hb as [-> Hb]. simpl.
      now apply ltb_le_lt with (b := c2). }
    destruct (classes (args self)); [now apply Hlt |].
    specialize (Hlt true). simpl in Hlt. now apply Hlt. }
  destruct (filtered_row_returned Hsort E1 Hi1 Hrows Hk Hr Hmax Hkeep1)
    as (out' & Hout' & Hscale').
  destruct (Hall1 i res1 Hi1) as (rows1 & im1 & pth1 & _ & Him1 & _ & Eimg1).
  apply postprocess_image_meta in Eimg1 as (Ho1 & _ & _).
  assert (Eim : orig_img res1 = im) by congruence.
  rewrite Eim in Hscale'. rewrite Hscale in Hscale'. injection Hscale' as <-.
  exact Hout'.
Qed.
End ExtrasOrder.

(* ------------------------------------------------------------------ *)
(** ** Further properties on the store *)

Lemma zip4_third {A B C D : Type} (la : list A) (lb : list B) (lc : list C) (ld : list D) :
  map (fun x => snd (fst x)) (zip4 la lb lc ld)
  = firstn (length (zip4 la lb lc ld)) lc.
Proof.
  revert lb lc ld; induction la as [|a la IH]; intros [|b lb] [|c lc] [|d ld];
    simpl; try reflexivity.
  now rewrite IH.
Qed.

Section StoreExtras.
Context {T : Type} `{Scalar T}.
Variable xywh2xyxy : list T -> list T.
Variable argsort : list T -> list nat.
Variable convert_torch2numpy_batch : Tensor4 T -> list Image.

(** Memory only grows, also under the in-place products. *)
Lemma imul_at_grows (pred : View) (cols : list nat) (k : T) (s s1 : State T)
    (o : option unit) :
  imul_at pred cols k s = (o, s1) -> length (st_heap s) <= length (st_heap s1).
Proof.
  intros E.
  destruct (@safe_imul_at T _ 0 pred cols k (Nat.le_0_l _) s (Nat.le_0_l _))
    as [(Hlen & _) _].
  now rewrite E in Hlen.
Qed.

(** What the loop body returns on the store: the image reference and the
    path it was given, and boxes in a cell that did not exist before. *)
Lemma postprocess_image_st_refs (nc : nat) (bbox score : View) (oi : nat)
    (pth : String.string) (s s' : State T) (r : ResultsRef) :
  postprocess_image_st xywh2xyxy argsort nc bbox score oi pth s = (Some r, s') ->
  rr_orig_img r = oi /\ rr_path r = pth /\
  length (st_heap s) <= v_cell (rr_boxes r) < length (st_heap s').
Proof.
  intros E. unfold postprocess_image_st in E.
  apply bindM_inv in E as (self & s_ & E0 & E). unfold get_self in E0.
  injection E0 as <- <-.
  apply bindM_inv in E as (b0 & s_ & E1 & E). apply read2_inv in E1 as [-> _].
  apply bindM_inv in E as (bbox' & sa & Ea & E).
  apply alloc2_inv in Ea as (_ & _ & _ & _ & La & _).
  apply bindM_inv in E as (sc0 & s_ & E2 & E). apply read2_inv in E2 as [-> _].
  apply bindM_inv in E as ([ms cls] & s_ & E3 & E). unfold lift in E3.
  injection E3 as _ <-. cbv zeta in E.
  apply bindM_inv in E as (max_score & sb & Eb & E).
  apply alloc2_inv in Eb as (_ & _ & _ & _ & Lb & _).
  apply bindM_inv in E as (msv & s_ & E4 & E). apply read2_inv in E4 as [-> _].
  apply bindM_inv in E as (bv & s_ & E5 & E). apply read2_inv in E5 as [-> _].
  apply bindM_inv in E as (cat & sc_ & Ec & E).
  apply alloc2_inv in Ec as (_ & _ & _ & _ & Lc & _).
  apply bindM_inv in E as (cv & s_ & E6 & E). apply read2_inv in E6 as [-> _].
  apply bindM_inv in E as (pred1 & sd & Ed & E).
  apply alloc2_inv in Ed as (_ & _ & _ & _ & Ld & _).
  apply bindM_inv in E as (pv & s_ & E7 & E). apply read2_inv in E7 as [-> _].
  apply bindM_inv in E as (key & s_ & E8 & E). unfold lift in E8. injection E8 as _ <-.
  apply bindM_inv in E as (sorted & s_ & E9 & E). unfold lift in E9. injection E9 as _ <-.
  apply bindM_inv in E as (pred2 & se & Ee & E).
  apply alloc2_inv in Ee as (Ce & _ & _ & _ & Le & _).
  apply bindM_inv in E as (pred3 & s_ & E10 & E).
  unfold slice_rows in E10.
  apply bindM_inv in E10 as (m0 & s0 & E10a & E10). apply read2_inv in E10a as [-> _].
  unfold ret in E10. injection E10 as <- <-.
  apply bindM_inv in E as (im0 & s_ & E11 & E).
  apply read_image_inv in E11 as [-> _].
  destruct (shape2 im0) as [oh ow].
  apply bindM_inv in E as ([] & sf & Ef & E). apply imul_at_grows in Ef.
  apply bindM_inv in E as ([] & sg & Eg & E). apply imul_at_grows in Eg.
  unfold ret in E. injection E as <- <-.
  cbn [rr_orig_img rr_path rr_boxes v_cell] in *.
  repeat split; lia.
Qed.

(** The loop on the store: results in the order of the tuples, each with
    boxes in a cell of its own, later than those before it. *)
Lemma loop_refs (nc : nat) (items : list (View * View * nat * String.string)) :
  forall (s s' : State T) (rs : list ResultsRef),
  mapM_st (fun '(bbox, score, orig_img, img_path) =>
             postprocess_image_st xywh2xyxy argsort nc bbox score orig_img img_path)
          items s = (Some rs, s') ->
  map rr_orig_img rs = map (fun x => snd (fst x)) items /\
  length (st_heap s) <= length (st_heap s') /\
  Forall (fun r => length (st_heap s) <= v_cell (rr_boxes r) < length (st_heap s')) rs /\
  NoDup (map (fun r => v_cell (rr_boxes r)) rs).
Proof.
  induction items as [|[[[bv sv] oi] p] items IH]; intros s s' rs E.
  - cbn in E. unfold ret in E. injection E as <- <-.
    repeat split; auto; constructor.
  - cbn [mapM_st] in E.
    apply bindM_inv in E as (r & s1 & E1 & E).
    apply bindM_inv in E as (rs' & s2 & E2 & E).
    unfold ret in E. injection E as <- <-.
    apply postprocess_image_st_refs in E1 as (Ho & _ & Hc).
    destruct (IH _ _ _ E2) as (Hmap & Hlen & Hall & Hnd).
    cbn [map fst snd]. split; [now rewrite Ho, Hmap |].
    split; [lia |]. split.
    + constructor; [lia |]. eapply Forall_impl; [| exact Hall]. cbv beta. intros; lia.
    + constructor; [| exact Hnd].
      intros Hin. apply in_map_iff in Hin as (r' & Er' & Hr').
      rewrite Forall_forall in Hall. specialize (Hall r' Hr'). cbv beta in Hall. lia.
Qed.

(** X13: every [Results] holds the very image it was given, the [i]-th of
    [orig_imgs], not a copy; the boxes of the results are in cells created
    during the call, no two results sharing a cell. *)
Theorem postprocess_st_results_alias (preds : PredsRef) (img : nat) (l : list nat)
    (s s' : State T) (rs : list ResultsRef) :
  postprocess_st xywh2xyxy argsort convert_torch2numpy_batch preds img (RImages l) s
    = (Some rs, s') ->
  map rr_orig_img rs = firstn (length rs) l /\
  Forall (fun r => length (st_heap s) <= v_cell (rr_boxes r)) rs /\
  NoDup (map (fun r => v_cell (rr_boxes r)) rs).
Proof.
  intros E. unfold postprocess_st in E.
  apply bindM_inv in E as (self & s_ & E0 & E). unfold get_self in E0.
  injection E0 as <- <-. cbv zeta in E.
  apply bindM_inv in E as (w' & s_ & E1 & E). unfold lift in E1. injection E1 as _ <-.
  apply bindM_inv in E as ([bboxes scores] & s_ & E2 & E).
  unfold split3 in E2. destruct (w_ncol w' <? 4); [discriminate E2 |].
  unfold ret in E2. injection E2 as <- <- <-. cbv zeta in E.
  apply bindM_inv in E as (l' & s_ & E3 & E). unfold ret in E3. injection E3 as <- <-.
  apply bindM_inv in E as (bb & s_ & E4 & E).
  unfold iter3 in E4. apply bindM_inv in E4 as (d1 & s1 & E4a & E4).
  unfold read3 in E4a. destruct (nth_error (st_heap s) _) as [[d| |]|];
    try discriminate E4a.
  injection E4a as _ <-. unfold ret in E4. injection E4 as _ <-.
  apply bindM_inv in E as (ss & s_ & E5 & E).
  unfold iter3 in E5. apply bindM_inv in E5 as (d2 & s2 & E5a & E5).
  unfold read3 in E5a. destruct (nth_error (st_heap s) _) as [[d'| |]|];
    try discriminate E5a.
  injection E5a as _ <-. unfold ret in E5. injection E5 as _ <-.
  apply loop_refs in E as (Hmap & _ & Hall & Hnd).
  split; [| split; [| exact Hnd]].
  - rewrite Hmap, zip4_third. f_equal.
    rewrite <- (length_map rr_orig_img rs), Hmap. now rewrite length_map.
  - eapply Forall_impl; [| exact Hall]. cbv beta. intros; lia.
Qed.
End StoreExtras.

(* ------------------------------------------------------------------ *)
(** ** Ties and the choice of [argsort] *)

Lemma sorted_perm_unique {A : Type} (R : A -> A -> Prop) (l1 l2 : list A) :
  (forall a b, In a l1 -> In b l1 -> R a b -> R b a -> a = b) ->
  StronglySorted R l1 -> StronglySorted R l2 -> Permutation l1 l2 -> l1 = l2.
Proof.
  intros Hanti HS1; revert l2; induction HS1 as [|a l1 HS1 IH Hall1];
    intros l2 HS2 HP.
  - apply Permutation_nil in HP. now subst.
  - destruct HS2 as [|b l2 HS2 Hall2].
    + apply Permutation_sym, Permutation_nil in HP. discriminate.
    + assert (Eab : a = b).
      { assert (Ha : In a (b :: l2)) by (apply (Permutation_in _ HP); now left).
        assert (Hb : In b (a :: l1))
          by (apply (Permutation_in _ (Permutation_sym HP)); now left).
        destruct Ha as [-> | Ha]; [reflexivity |].
        destruct Hb as [-> | Hb]; [reflexivity |].
        rewrite Forall_forall in Hall1, Hall2.
        apply Hanti; [now left | now right | now apply Hall1 | now apply Hall2]. }
      subst b. f_equal. apply IH; [| exact HS2 | now apply Permutation_cons_inv in HP].
      intros x y Hx Hy. apply Hanti; now right.
Qed.

Lemma ForallOrdPairs_nth {A : Type} (P : A -> A -> Prop) (l : list A) :
  ForallOrdPairs P l ->
  forall i j a b, i < j -> nth_error l i = Some a -> nth_error l j = Some b -> P a b.
Proof.
  induction 1 as [|x l Hx HF IH]; intros i j a b Hij Hi Hj.
  - destruct i; discriminate.
  - destruct j as [|j]; [lia |]. cbn in Hj. destruct i as [|i]; cbn in Hi.
    + injection Hi as <-. rewrite Forall_forall in Hx. apply Hx.
      eapply nth_error_In; eassumption.
    + apply (IH i j); auto. lia.
Qed.

Lemma ForallOrdPairs_map_filter {A B : Type} (P : B -> B -> Prop) (f : A -> B)
    (p : A -> bool) (l : list A) :
  ForallOrdPairs P (map f l) -> ForallOrdPairs P (map f (filter p l)).
Proof.
  induction l as [|a l IH]; intros HF; simpl in *; [constructor |].
  inversion HF as [|? ? Ha HF']; subst.
  destruct (p a); [| now apply IH]. simpl. constructor; [| now apply IH].
  rewrite Forall_forall in *. intros y Hy. apply Ha.
  apply in_map_iff in Hy as (x & <- & Hx). apply in_map.
  apply filter_In in Hx. tauto.
Qed.

Lemma map_snd_combine {A B C : Type} (R : A -> B -> Prop) (f : B -> C)
    (l : list A) (l' : list B) :
  Forall2 R l l' -> map (fun p => f (snd p)) (combine l l') = map f l'.
Proof.
  induction 1; simpl; [reflexivity | now f_equal].
Qed.

Section InsertionArgsort.
Context {T : Type} `{ScalarOrder T}.

(** The insertion sort of any arrangement of the positions meets
    [argsort_spec]. *)
Lemma insertion_sorts (v : list T) (l : list nat) :
  Forall (fun j => j < length v) l ->
  Permutation (fold_right (insert_desc v) [] l) l /\
  StronglySorted (fun a b => lt_at v a b = false) (fold_right (insert_desc v) [] l).
Proof.
  induction l as [|i l IH]; intros Hl; simpl.
  - split; constructor.
  - inversion Hl as [|? ? Hi Hl']; subst. destruct (IH Hl') as [P S]. split.
    + rewrite insert_desc_perm. now constructor.
    + apply insert_desc_sorted; [| assumption].
      rewrite Forall_forall in *. intros x Hx. apply Hl'.
      now apply (Permutation_in _ P).
Qed.

Lemma reverse_argsort_spec : argsort_spec (T := T) reverse_argsort.
Proof.
  intros v. unfold reverse_argsort.
  destruct (@insertion_sorts v (rev (seq 0 (length v)))) as [P S].
  { apply Forall_forall. intros j Hj. apply in_rev, in_seq in Hj. lia. }
  split.
  - rewrite P. symmetry. apply Permutation_rev.
  - eapply StronglySorted_impl; [| exact S].
    intros i j _ _ Hij a b Ha Hb. unfold lt_at in Hij. now rewrite Ha, Hb in Hij.
Qed.
End InsertionArgsort.

Section ArgsortChoice.
Context {T : Type} `{Scalar T}.
Variable xywh2xyxy : list T -> list T.
Variable convert_torch2numpy_batch : Tensor4 T -> list Image.

(** Without ties there is one descending arrangement. *)
Lemma argsort_unique (argsort1 argsort2 : list T -> list nat) (key : list T) :
  argsort_spec argsort1 -> argsort_spec argsort2 -> tie_free key ->
  argsort1 key = argsort2 key.
Proof.
  intros H1 H2 Htf. destruct (H1 key) as [P1 S1]. destruct (H2 key) as [P2 S2].
  eapply sorted_perm_unique; [| exact S1 | exact S2 |].
  - intros i j Hi Hj Rij Rji.
    apply (Permutation_in _ P1), in_seq in Hi.
    apply (Permutation_in _ P1), in_seq in Hj.
    destruct (nth_error key i) as [a|] eqn:Ea; [| apply nth_error_None in Ea; lia].
    destruct (nth_error key j) as [b|] eqn:Eb; [| apply nth_error_None in Eb; lia].
    cbv beta in Rij, Rji.
    specialize (Rij a b Ea Eb). specialize (Rji b a Eb Ea).
    destruct (Nat.lt_trichotomy i j) as [Hlt | [Heq | Hgt]]; [| exact Heq |].
    + destruct (ForallOrdPairs_nth Htf Hlt Ea Eb); congruence.
    + destruct (ForallOrdPairs_nth Htf Hgt Eb Ea); congruence.
  - rewrite P1. symmetry. exact P2.
Qed.

(** The confidences of the rows that pass the filter, in their order. *)
Lemma column_filtered (self : Predictor T) (rows : list (list T)) (mi : list (T * Z))
    (key : list T) :
  shape_preserving xywh2xyxy ->
  Forall (fun r => 4 <= length r) rows ->
  column 4 (filtered xywh2xyxy self rows mi) = Some key ->
  key = map (fun p => fst (snd p))
            (filter (fun p : list T * (T * Z) => keep self (snd p)) (combine rows mi)).
Proof.
  intros Hs Hrows. unfold filtered, column.
  assert (Hin : forall p, In p (filter (fun p : list T * (T * Z) => keep self (snd p))
                                 (combine rows mi)) -> 4 <= length (fst p)).
  { intros [r mc] Hp. apply filter_In in Hp as [Hp _]. apply in_combine_l in Hp.
    rewrite Forall_forall in Hrows. now apply Hrows. }
  revert key Hin.
  induction (filter (fun p : list T * (T * Z) => keep self (snd p)) (combine rows mi))
    as [|[r mc] l IH]; intros key Hin E; cbn [map mapM] in E.
  - now injection E as <-.
  - apply bind_Some in E as (k & Ek & E). apply bind_Some in E as (ks & Eks & E).
    injection E as <-. cbn [map fst snd]. f_equal.
    + cbn [fst snd] in Ek. unfold build in Ek.
      assert (L : length (xywh2xyxy (firstn 4 r)) = 4).
      { rewrite Hs, length_firstn. specialize (Hin (r, mc) (or_introl eq_refl)).
        cbn [fst] in Hin. lia. }
      rewrite nth_error_app2 in Ek by lia. rewrite L in Ek. cbn in Ek. congruence.
    + apply IH; [| exact Eks]. intros p Hp. apply Hin. now right.
Qed.

(** X11: when no two prediction rows of an image have the same maximal
    score, what [postprocess] returns does not depend on which descending
    [argsort] is used. *)
Theorem postprocess_argsort_choice (argsort1 argsort2 : list T -> list nat)
    (self : Predictor T) (preds : Preds T) (img : Tensor4 T) (orig_imgs : OrigImgs T) :
  shape_preserving xywh2xyxy ->
  argsort_spec argsort1 -> argsort_spec argsort2 ->
  wf_preds preds = true -> scores_tie_free preds ->
  postprocess xywh2xyxy argsort1 convert_torch2numpy_batch self preds img orig_imgs
  = postprocess xywh2xyxy argsort2 convert_torch2numpy_batch self preds img orig_imgs.
Proof.
  intros Hs H1 H2 Hwf Htf. unfold postprocess.
  destruct (item0 (as_list preds)) as [p0|] eqn:Ep0; [| reflexivity]. cbn [bind].
  destruct (split_last p0) as [[bboxes scores]|] eqn:Esplit; cbn [bind]; [| reflexivity].
  apply split_last_Some in Esplit as (Hnd & -> & ->).
  apply mapM_ext_in. intros [[[bbox score] im] pth] Hin.
  apply In_nth_error in Hin as (j & Hj).
  apply nth_error_zip4 in Hj as (Hb & Hsc & _ & _).
  rewrite nth_error_map in Hb. rewrite nth_error_map in Hsc.
  destruct (nth_error (t_data p0) j) as [rows|] eqn:Hrows; [| discriminate].
  assert (Eb : bbox = map (firstn 4) rows) by (cbn [option_map] in Hb; congruence).
  assert (Es : score = map (skipn 4) rows) by (cbn [option_map] in Hsc; congruence).
  subst bbox score. clear Hb Hsc.
  unfold postprocess_image, tensor_max.
  destruct (t_nd p0 - 4 =? 0); [reflexivity |].
  destruct (mapM row_max (map (skipn 4) rows)) as [mi|] eqn:Emi; [| reflexivity].
  cbn [bind]. cbv zeta. rewrite pred_filtered.
  destruct (column 4 (filtered xywh2xyxy self rows mi)) as [key|] eqn:Ekey;
    [| reflexivity].
  cbn [bind]. rewrite (argsort_unique (key := key) H1 H2); [reflexivity |].
  unfold wf_preds in Hwf. rewrite Ep0 in Hwf.
  apply column_filtered in Ekey; [| exact Hs |].
  - subst key. apply ForallOrdPairs_map_filter.
    apply mapM_Forall2 in Emi as HF. apply Forall2_map_l in HF.
    rewrite (map_snd_combine fst HF).
    apply (Htf j rows mi); [| exact Emi].
    unfold rows_of. rewrite Ep0. exact Hrows.
  - apply Forall_forall. intros r Hr. rewrite (wf_tensor_row Hwf Hrows Hr). exact Hnd.
Qed.
End ArgsortChoice.

(* ------------------------------------------------------------------ *)
(** ** The further properties on the small batch *)

(** X1 with one query and no class: the call raises. *)
Lemma postprocess_raises_iff_witness :
  Demo.run Demo.self_all (PTensor DemoX.preds_no_class) DemoX.one_image = None <->
  (item0 (as_list (PTensor DemoX.preds_no_class)) = None \/
   exists p0, item0 (as_list (PTensor DemoX.preds_no_class)) = Some p0 /\
     (t_nd p0 < 4 \/
      (t_nd p0 = 4 /\ t_data p0 <> [] /\
       images_of (fun _ => []) DemoX.one_image <> [] /\
       paths (batch Demo.self_all) <> []))).
Proof.
  apply (@postprocess_raises_iff Q Q_Scalar center_to_corners stable_argsort
           (fun _ => []) Demo.self_all (PTensor DemoX.preds_no_class) []
           DemoX.one_image center_to_corners_shape stable_argsort_spec).
  intros p0 E. injection E as <-. reflexivity.
Defined.

(** X2 with two blocks of predictions and one image: one result. *)
Lemma postprocess_zip_shortest_witness :
  exists p0,
    item0 (as_list (PTensor Demo.preds0)) = Some p0 /\
    length DemoX.results_short =
      Nat.min (length (t_data p0))
        (Nat.min (length (images_of (fun _ => []) DemoX.one_image))
                 (length (paths (batch Demo.self_all)))) /\
    forall i res, nth_error DemoX.results_short i = Some res ->
      nth_error (images_of (fun _ => []) DemoX.one_image) i = Some (orig_img res) /\
      nth_error (paths (batch Demo.self_all)) i = Some (path res) /\
      res_names res = names Demo.self_all.
Proof.
  apply (@postprocess_zip_shortest Q Q_Scalar center_to_corners stable_argsort
           (fun _ => []) Demo.self_all (PTensor Demo.preds0) [] DemoX.one_image
           DemoX.results_short).
  vm_compute; reflexivity.
Defined.

(** X3 on the first image. *)
Lemma postprocess_boxes_shape_witness :
  Forall (fun out => length out = 6) (boxes Demo.res_all0) /\
  exists rows, rows_of (PTensor Demo.preds0) 0 = Some rows /\
               length (boxes Demo.res_all0) <= length rows.
Proof.
  apply (@postprocess_boxes_shape Q Q_Scalar center_to_corners stable_argsort
           (fun _ => []) center_to_corners_shape stable_argsort_spec
           Demo.self_all (PTensor Demo.preds0) [] Demo.imgs0 Demo.results_all 0
           Demo.res_all0).
  - reflexivity.
  - vm_compute; reflexivity.
  - reflexivity.
Defined.



(** X6 with thresholds 1/4 and 1/2 on the first image. *)
Lemma postprocess_conf_monotone_witness :
  exists res1, nth_error DemoX.results_low 0 = Some res1 /\
               In DemoX.row_high (boxes res1).
Proof.
  apply (@postprocess_conf_monotone Q Q_Scalar Q_ScalarOrder center_to_corners
           stable_argsort (fun _ => []) Demo.self_all (1#4)%Q (1#2)%Q
           (PTensor Demo.preds0) [] Demo.imgs0 DemoX.results_low DemoX.results_high
           0 DemoX.res_high DemoX.row_high (nth 0 (t_data Demo.preds0) [])).
  - exact stable_argsort_spec.
  - reflexivity.
  - vm_compute; reflexivity.
  - vm_compute; reflexivity.
  - reflexivity.
  - vm_compute. discriminate.
  - reflexivity.
  - left; reflexivity.
Defined.

(** X7 with the three classes of the demo listed. *)
Lemma postprocess_all_classes_is_none_witness :
  Demo.run (with_classes Demo.self_all (Some [0; 1; 2]%Z)) (PTensor Demo.preds0) Demo.imgs0
  = Demo.run (with_classes Demo.self_all None) (PTensor Demo.preds0) Demo.imgs0.
Proof.
  apply (@postprocess_all_classes_is_none Q Q_Scalar center_to_corners stable_argsort
           (fun _ => []) Demo.self_all (PTensor Demo.preds0) [] Demo.imgs0 [0; 1; 2]%Z).
  - reflexivity.
  - intros p0 c E Hc. injection E as <-. cbn in Hc.
    assert (Hcases : c = 0%Z \/ c = 1%Z \/ c = 2%Z) by lia.
    destruct Hcases as [-> | [-> | ->]]; simpl; auto.
Defined.

(** X8 on the first image. *)
Lemma postprocess_no_class_no_box_witness : boxes DemoX.res_no_class = [].
Proof.
  apply (@postprocess_no_class_no_box Q Q_Scalar center_to_corners stable_argsort
           (fun _ => []) DemoX.self_no_class (PTensor Demo.preds0) [] Demo.imgs0
           DemoX.results_no_class 0 DemoX.res_no_class).
  - exact stable_argsort_spec.
  - reflexivity.
  - vm_compute; reflexivity.
  - reflexivity.
Defined.

(** X9: the demo batch as its first image followed by its second. *)
Lemma postprocess_batch_concat_witness :
  postprocess center_to_corners stable_argsort (fun _ => [])
    (with_paths Demo.self_all (DemoX.paths_a ++ DemoX.paths_b))
    (PTensor {| t_nd := 7; t_data := DemoX.block0 ++ DemoX.block1 |}) []
    (OList ([Demo.img0] ++ [Demo.img1]))
  = bind (postprocess center_to_corners stable_argsort (fun _ => [])
            (with_paths Demo.self_all DemoX.paths_a)
            (PTensor {| t_nd := 7; t_data := DemoX.block0 |}) [] (OList [Demo.img0]))
      (fun r1 =>
         bind (postprocess center_to_corners stable_argsort (fun _ => [])
                 (with_paths Demo.self_all DemoX.paths_b)
                 (PTensor {| t_nd := 7; t_data := DemoX.block1 |}) [] (OList [Demo.img1]))
           (fun r2 => Some (r1 ++ r2))).
Proof.
  apply (@postprocess_batch_concat Q Q_Scalar center_to_corners stable_argsort
           (fun _ => []) Demo.self_all 7 DemoX.block0 DemoX.block1
           [Demo.img0] [Demo.img1] DemoX.paths_a DemoX.paths_b []).
  - reflexivity.
  - reflexivity.
Defined.

(** X10 on the best row of the first image. *)
Lemma postprocess_class_in_range_witness :
  exists c, nth_error Demo.row_all0 5 = Some (of_Z c) /\
            (0 <= c < Z.of_nat (t_nd Demo.preds0 - 4))%Z.
Proof.
  apply (@postprocess_class_in_range Q Q_Scalar center_to_corners stable_argsort
           (fun _ => []) center_to_corners_shape stable_argsort_spec
           Demo.self_all (PTensor Demo.preds0) Demo.preds0 [] Demo.imgs0
           Demo.results_all 0 Demo.res_all0 Demo.row_all0).
  - reflexivity.
  - reflexivity.
  - vm_compute; reflexivity.
  - reflexivity.
  - left; reflexivity.
Defined.

Lemma demo_scores_tie_free : scores_tie_free (PTensor Demo.preds0).
Proof.
  intros i rows mi Hr Hm.
  destruct i as [|[|i]]; cbn in Hr;
    [injection Hr as <- | injection Hr as <- | destruct i; discriminate Hr];
    vm_compute in Hm; injection Hm as <-;
    unfold tie_free;
    repeat match goal with
           | |- ForallOrdPairs _ _ => constructor
           | |- Forall _ _ => constructor
           | |- _ \/ _ => vm_compute; auto
           end.
Qed.

(** X11 with the two insertion sorts, which differ on ties. *)
Lemma postprocess_argsort_choice_witness :
  postprocess center_to_corners stable_argsort (fun _ => []) Demo.self_all
    (PTensor Demo.preds0) [] Demo.imgs0
  = postprocess center_to_corners reverse_argsort (fun _ => []) Demo.self_all
      (PTensor Demo.preds0) [] Demo.imgs0.
Proof.
  apply (@postprocess_argsort_choice Q Q_Scalar center_to_corners (fun _ => [])
           stable_argsort reverse_argsort Demo.self_all (PTensor Demo.preds0) []
           Demo.imgs0 center_to_corners_shape stable_argsort_spec
           reverse_argsort_spec).
  - reflexivity.
  - exact demo_scores_tie_free.
Defined.

(** The two insertion sorts do differ when there is a tie. *)
Example argsorts_differ_on_ties :
  stable_argsort [1#2; 1#2]%Q = [0; 1] /\ reverse_argsort [1#2; 1#2]%Q = [1; 0].
Proof. split; reflexivity. Qed.


(** X13 on the demo batch in memory. *)
Lemma postprocess_st_results_alias_witness :
  map rr_orig_img DemoX.refs_st = firstn (length DemoX.refs_st) [1; 2] /\
  Forall (fun r => length (st_heap Demo.state0) <= v_cell (rr_boxes r)) DemoX.refs_st /\
  NoDup (map (fun r => v_cell (rr_boxes r)) DemoX.refs_st).
Proof.
  apply (@postprocess_st_results_alias Q Q_Scalar center_to_corners stable_argsort
           (fun _ => []) Demo.preds_ref 0 [1; 2] Demo.state0 DemoX.state1
           DemoX.refs_st).
  vm_compute; reflexivity.
Defined.

(** X14 with other pixels in images of the same shapes. *)
Lemma postprocess_boxes_depend_on_shape_witness :
  exists results2,
    postprocess center_to_corners stable_argsort (fun _ => []) Demo.self_all
      (PTensor Demo.preds0) [] (OList DemoX.imgs_other) = Some results2 /\
    map (@boxes Q) results2 = map (@boxes Q) Demo.results_all.
Proof.
  apply (@postprocess_boxes_depend_on_shape Q Q_Scalar center_to_corners
           stable_argsort (fun _ => []) Demo.self_all (PTensor Demo.preds0) []
           [Demo.img0; Demo.img1] DemoX.imgs_other Demo.results_all).
  - repeat constructor.
  - vm_compute; reflexivity.
Defined.
